(** * The colored scheduler of GraphLab

    A shallow embedding of [graphlab::colored_scheduler]
    (src/graphlab/schedulers/colored_scheduler.hpp) and the properties of
    its dispatch protocol.

    Conventions of the embedding:
    - a [size_t] is a [Z] in [0, 2^64); every addition the source performs
      on a [size_t] is followed by [SizeT.wrap];
    - a [std::vector] is a [list]; [operator[]] out of range, a modulus or a
      division by zero and a failed [assert] are undefined or fatal in C++,
      and are the [Crash] outcomes of the model;
    - a member function that mutates the object takes the scheduler and
      returns the new one; a call of [get_next_task] is one atomic step of
      the (sequentially consistent) interleaving of the workers' calls;
    - an update function is the machine word of its pointer, [NULL] is 0. *)

From Stdlib Require Import ZArith Lia Bool.
From stdpp Require Import base tactics option list.

Local Open Scope Z_scope.

(** ** Machine integers *)

Module SizeT.

Definition modulus : Z := 2 ^ 64.

(** Unsigned wrap-around of a 64-bit [size_t]. *)
Definition wrap (x : Z) : Z := x mod modulus.

(** [(size_t)(-1)], the initial value of [max_iterations]. *)
Definition max : Z := modulus - 1.

End SizeT.

(** ** Faults and fallible computations *)

Inductive fault : Type :=
  | OutOfRange        (* operator[] beyond the end of a vector *)
  | DivisionByZero    (* % or / with a zero divisor *)
  | AssertionFailure. (* assert(...) evaluated to false *)

Inductive outcome (A : Type) : Type :=
  | Done (a : A)
  | Crash (f : fault).

Arguments Done {A} a.
Arguments Crash {A} f.

#[global] Instance outcome_ret : MRet outcome := fun A a => Done a.

#[global] Instance outcome_bind : MBind outcome := fun A B k m =>
  match m with
  | Done a => k a
  | Crash f => Crash f
  end.

(** [v[i]] as an rvalue. *)
Definition vec_at {A : Type} (v : list A) (i : Z) : outcome A :=
  if 0 <=? i then
    match v !! Z.to_nat i with
    | Some x => Done x
    | None => Crash OutOfRange
    end
  else Crash OutOfRange.

(** [v[i] = x]. *)
Definition vec_set {A : Type} (v : list A) (i : Z) (x : A) : outcome (list A) :=
  if (0 <=? i) && (i <? Z.of_nat (length v))
  then Done (<[Z.to_nat i := x]> v)
  else Crash OutOfRange.

(** [a % b] and [a / b] on unsigned operands. *)
Definition umod (a b : Z) : outcome Z :=
  if b =? 0 then Crash DivisionByZero else Done (a mod b).

Definition udiv (a b : Z) : outcome Z :=
  if b =? 0 then Crash DivisionByZero else Done (a / b).

(** ** Collaborators declared outside the scheduler's header *)

(** The part of the [Graph] template parameter the scheduler uses:
    [num_vertices()] and [color(i)].  Vertex ids ([vertex_id_t]) and colors
    ([vertex_color_type]) are values of unsigned types. *)
Record graph : Type := Graph {
  num_vertices : Z;
  color_of : Z -> Z
}.

(** [update_task_type]: a vertex paired with an update function. *)
Record update_task : Type := UpdateTask {
  vertex : Z;
  function : Z
}.

Definition NULL : Z := 0.

(** A [double], as its IEEE 754 bit pattern.  The scheduler ignores every
    priority it is passed. *)
Record double : Type := Double {
  double_bits : Z
}.

Definition unit_priority : double := Double 4607182418800017408. (* 1.0 *)

(** [sched_status::status_enum]. *)
Inductive status_enum : Type := NEWTASK | WAITING | COMPLETE.

(** Modelled from the spec: [scheduler_options::options_enum] is declared
    in another header of the repository.  The scheduler names two of its
    constants, UPDATE_FUNCTION and MAX_ITERATIONS; every other constant of
    the enumeration is an [OTHER_OPTION] with its tag. *)
Inductive options_enum : Type :=
  | UPDATE_FUNCTION
  | MAX_ITERATIONS
  | OTHER_OPTION (tag : nat).

Definition is_update_function (opt : options_enum) : bool :=
  match opt with UPDATE_FUNCTION => true | _ => false end.

Definition is_max_iterations (opt : options_enum) : bool :=
  match opt with MAX_ITERATIONS => true | _ => false end.

(** ** The scheduler object *)

Record scheduler : Type := Scheduler {
  color_blocks : list (list Z);
  cpu_index : list Z;
  cpu_color : list Z;
  cpu_waiting : list Z;
  max_iterations : Z;
  update_function : Z;
  completed : bool;
  color : Z;      (* atomic<size_t> *)
  waiting : Z     (* atomic<size_t> *)
}.

Definition set_cpu_index (v : list Z) (s : scheduler) : scheduler :=
  Scheduler (color_blocks s) v (cpu_color s) (cpu_waiting s)
    (max_iterations s) (update_function s) (completed s) (color s) (waiting s).

Definition set_cpu_color (v : list Z) (s : scheduler) : scheduler :=
  Scheduler (color_blocks s) (cpu_index s) v (cpu_waiting s)
    (max_iterations s) (update_function s) (completed s) (color s) (waiting s).

Definition set_cpu_waiting (v : list Z) (s : scheduler) : scheduler :=
  Scheduler (color_blocks s) (cpu_index s) (cpu_color s) v
    (max_iterations s) (update_function s) (completed s) (color s) (waiting s).

Definition set_max_iterations (k : Z) (s : scheduler) : scheduler :=
  Scheduler (color_blocks s) (cpu_index s) (cpu_color s) (cpu_waiting s)
    k (update_function s) (completed s) (color s) (waiting s).

Definition set_update_function (f : Z) (s : scheduler) : scheduler :=
  Scheduler (color_blocks s) (cpu_index s) (cpu_color s) (cpu_waiting s)
    (max_iterations s) f (completed s) (color s) (waiting s).

Definition set_completed (b : bool) (s : scheduler) : scheduler :=
  Scheduler (color_blocks s) (cpu_index s) (cpu_color s) (cpu_waiting s)
    (max_iterations s) (update_function s) b (color s) (waiting s).

Definition set_color (c : Z) (s : scheduler) : scheduler :=
  Scheduler (color_blocks s) (cpu_index s) (cpu_color s) (cpu_waiting s)
    (max_iterations s) (update_function s) (completed s) c (waiting s).

Definition set_waiting (n : Z) (s : scheduler) : scheduler :=
  Scheduler (color_blocks s) (cpu_index s) (cpu_color s) (cpu_waiting s)
    (max_iterations s) (update_function s) (completed s) (color s) n.

(** [cpu_index.size()], the number of workers. *)
Definition ncpus (s : scheduler) : Z := Z.of_nat (length (cpu_index s)).

(** [color_blocks.size()], the number of color classes. *)
Definition nblocks (s : scheduler) : Z := Z.of_nat (length (color_blocks s)).

(** ** Construction *)

(** One round of the constructor's loop:
    [if (color >= color_blocks.size()) color_blocks.resize(color + 1);
     color_blocks[color].push_back(i);] *)
Definition push_vertex (g : graph) (blocks : list (list Z)) (i : Z)
  : list (list Z) :=
  let c := color_of g i in
  let blocks :=
    if Z.of_nat (length blocks) <=? c
    then resize (Z.to_nat (c + 1)) [] blocks
    else blocks in
  alter (fun block => block ++ [i]) (Z.to_nat c) blocks.

Definition build_color_blocks (g : graph) : list (list Z) :=
  foldl (push_vertex g) [] (seqZ 0 (num_vertices g)).

(** The constructor.  The three per-worker vectors get [ncpus] zeros.
    [completed], a plain [bool] member, is left uninitialised: its
    indeterminate value is the argument [junk].  [waiting] is
    default-constructed, and [start] stores zero in it before any call
    reads it. *)
Definition colored_scheduler (g : graph) (n : Z) (junk : bool) : scheduler :=
  {| color_blocks := build_color_blocks g;
     cpu_index := replicate (Z.to_nat n) 0;
     cpu_color := replicate (Z.to_nat n) 0;
     cpu_waiting := replicate (Z.to_nat n) 0;
     max_iterations := SizeT.max;
     update_function := NULL;
     completed := junk;
     color := 0;
     waiting := 0 |}.

(** ** Life cycle *)

(** One round of the loop of [start]:
    [cpu_index[i] = i; cpu_color[i] = color.value; cpu_waiting[i] = false]. *)
Definition start_round (s : scheduler) (i : Z) : outcome scheduler :=
  ci ← vec_set (cpu_index s) i i;
  let s := set_cpu_index ci s in
  cc ← vec_set (cpu_color s) i (color s);
  let s := set_cpu_color cc s in
  cw ← vec_set (cpu_waiting s) i 0;
  Done (set_cpu_waiting cw s).

(** [for (i = ...) body] over the given values of [i]. *)
Fixpoint for_each (body : scheduler -> Z -> outcome scheduler)
    (range : list Z) (s : scheduler) : outcome scheduler :=
  match range with
  | [] => Done s
  | i :: rest => s' ← body s i; for_each body rest s'
  end.

Definition start (s : scheduler) : outcome scheduler :=
  if update_function s =? NULL then Crash AssertionFailure else
  s ← for_each start_round (seqZ 0 (ncpus s)) s;
  Done (set_completed false (set_waiting 0 s)).

Definition stop (s : scheduler) : scheduler := set_completed true s.

Definition abort (s : scheduler) : scheduler := set_completed true s.

(** ** Registration *)

Definition add_task (task : update_task) (priority : double) (s : scheduler)
  : scheduler :=
  set_update_function (function task) s.

Definition add_tasks (vertices : list Z) (func : Z) (priority : double)
    (s : scheduler) : scheduler :=
  set_update_function func s.

Definition add_task_to_all (func : Z) (priority : double) (s : scheduler)
  : scheduler :=
  set_update_function func s.

Definition completed_task (cpuid : Z) (task : update_task) (s : scheduler)
  : scheduler := s.

(** [set_option]: the first [if] has no [else], so control always reaches
    the second [if], whose [else] branch is [assert(false)]. *)
Definition set_option (opt : options_enum) (value : Z) (s : scheduler)
  : outcome scheduler :=
  let s1 := if is_update_function opt then set_update_function value s else s in
  if is_max_iterations opt
  then Done (set_max_iterations value s1)
  else Crash AssertionFailure.

(** ** Dispatch *)

(** Modelled from the spec: [atomic<size_t>::inc] is declared in
    graphlab/parallel/atomic.hpp, another header of the repository; it
    adds one to the counter and returns the value after the increment. *)
Definition atomic_inc (v : Z) : Z := SizeT.wrap (v + 1).

(** Lines 143-169 of [get_next_task]: the budget check, the dispatch of a
    vertex, and the overrun that parks the worker. *)
Definition dispatch (cpuid : Z) (ret_task : update_task) (s : scheduler)
  : outcome (status_enum * update_task * scheduler) :=
  my_color ← vec_at (cpu_color s) cpuid;
  current_color ← umod my_color (nblocks s);
  iteration ← udiv my_color (nblocks s);
  if max_iterations s <=? iteration then Done (COMPLETE, ret_task, s) else
  my_index ← vec_at (cpu_index s) cpuid;
  block ← vec_at (color_blocks s) current_color;
  if my_index <? Z.of_nat (length block) then
    v ← vec_at block my_index;
    Done (NEWTASK, UpdateTask v (update_function s), s)
  else
    let current_waiting := atomic_inc (waiting s) in
    let s := set_waiting current_waiting s in
    cw ← vec_set (cpu_waiting s) cpuid 1;
    let s := set_cpu_waiting cw s in
    if current_waiting =? ncpus s
    then Done (WAITING, ret_task, set_color (atomic_inc (color s)) (set_waiting 0 s))
    else Done (WAITING, ret_task, s).

(** [get_next_task(cpuid, ret_task)]: the status, the contents of the
    reference parameter [ret_task] on return, and the scheduler. *)
Definition get_next_task (cpuid : Z) (ret_task : update_task) (s : scheduler)
  : outcome (status_enum * update_task * scheduler) :=
  if completed s then Done (COMPLETE, ret_task, s) else
  parked ← vec_at (cpu_waiting s) cpuid;
  if negb (parked =? 0) then
    my_color ← vec_at (cpu_color s) cpuid;
    if my_color =? color s then Done (WAITING, ret_task, s) else
    cc ← vec_set (cpu_color s) cpuid (color s);
    ci ← vec_set (cpu_index s) cpuid cpuid;
    cw ← vec_set (cpu_waiting s) cpuid 0;
    dispatch cpuid ret_task (set_cpu_waiting cw (set_cpu_index ci (set_cpu_color cc s)))
  else
    my_index ← vec_at (cpu_index s) cpuid;
    ci ← vec_set (cpu_index s) cpuid (SizeT.wrap (my_index + ncpus s));
    dispatch cpuid ret_task (set_cpu_index ci s).

(** ** Driving the scheduler *)

(** The task variable a worker passes in before it was handed anything. *)
Definition no_task : update_task := UpdateTask 0 NULL.

(** What a worker observes of one call: the status and, for NEWTASK, the
    vertex of the task it was handed. *)
Definition event : Type := Z * status_enum * option Z.

Definition observe (cpuid : Z) (st : status_enum) (task : update_task)
  : event :=
  (cpuid, st, match st with NEWTASK => Some (vertex task) | _ => None end).

(** A deterministic single-threaded simulation: the workers named in the
    schedule call [get_next_task] one after the other. *)
Fixpoint run (schedule : list Z) (s : scheduler)
  : outcome (list event * scheduler) :=
  match schedule with
  | [] => Done ([], s)
  | cpuid :: rest =>
      '(st, task, s1) ← get_next_task cpuid no_task s;
      '(tr, s2) ← run rest s1;
      Done (observe cpuid st task :: tr, s2)
  end.

(** The scenario of the specification: four vertices colored
    [0:A, 1:A, 2:B, 3:B], two workers, one iteration. *)
Definition two_color_graph : graph :=
  Graph 4 (fun v => if v <? 2 then 0 else 1).

Definition scenario (g : graph) (n : Z) (f : Z) (k : Z) : outcome scheduler :=
  s ← set_option MAX_ITERATIONS k (add_task_to_all f unit_priority (colored_scheduler g n false));
  start s.


(** ** Cursors and the step relation of the dispatch protocol *)

(** The cursor of worker [i]: its offset, the epoch it observed, and its
    waiting flag. *)
Definition cursor (s : scheduler) (i : nat) : option (Z * Z * Z) :=
  idx ← cpu_index s !! i;
  col ← cpu_color s !! i;
  wt ← cpu_waiting s !! i;
  Some (idx, col, wt).

Definition put_cursor (i : nat) (idx col wt : Z) (s : scheduler) : scheduler :=
  set_cpu_waiting (<[i := wt]> (cpu_waiting s))
    (set_cpu_index (<[i := idx]> (cpu_index s))
      (set_cpu_color (<[i := col]> (cpu_color s)) s)).

(** Lines 130-141: the offset and the epoch with which a worker that is
    not held back reaches line 143. *)
Definition enter_class (s : scheduler) (i : nat) (idx col wt : Z) : Z * Z :=
  if wt =? 0
  then (SizeT.wrap (idx + ncpus s), col)
  else (Z.of_nat i, color s).

(** The six ways through [get_next_task], as a step relation: the status,
    the vertex handed out (if any), and the scheduler after the call. *)
Inductive step (s : scheduler) (i : nat)
  : status_enum -> option Z -> scheduler -> Prop :=
  | step_completed :
      completed s = true ->
      step s i COMPLETE None s
  | step_held idx col wt :
      completed s = false ->
      cursor s i = Some (idx, col, wt) ->
      wt <> 0 -> col = color s ->
      step s i WAITING None s
  | step_budget idx col wt idx1 col1 :
      completed s = false ->
      cursor s i = Some (idx, col, wt) ->
      ~ (wt <> 0 /\ col = color s) ->
      enter_class s i idx col wt = (idx1, col1) ->
      nblocks s <> 0 ->
      max_iterations s <= col1 / nblocks s ->
      step s i COMPLETE None (put_cursor i idx1 col1 0 s)
  | step_newtask idx col wt idx1 col1 block v :
      completed s = false ->
      cursor s i = Some (idx, col, wt) ->
      ~ (wt <> 0 /\ col = color s) ->
      enter_class s i idx col wt = (idx1, col1) ->
      nblocks s <> 0 ->
      col1 / nblocks s < max_iterations s ->
      color_blocks s !! Z.to_nat (col1 mod nblocks s) = Some block ->
      0 <= idx1 < Z.of_nat (length block) ->
      block !! Z.to_nat idx1 = Some v ->
      step s i NEWTASK (Some v) (put_cursor i idx1 col1 0 s)
  | step_overrun idx col wt idx1 col1 block :
      completed s = false ->
      cursor s i = Some (idx, col, wt) ->
      ~ (wt <> 0 /\ col = color s) ->
      enter_class s i idx col wt = (idx1, col1) ->
      nblocks s <> 0 ->
      col1 / nblocks s < max_iterations s ->
      color_blocks s !! Z.to_nat (col1 mod nblocks s) = Some block ->
      Z.of_nat (length block) <= idx1 ->
      atomic_inc (waiting s) <> ncpus s ->
      step s i WAITING None
        (set_waiting (atomic_inc (waiting s)) (put_cursor i idx1 col1 1 s))
  | step_advance idx col wt idx1 col1 block :
      completed s = false ->
      cursor s i = Some (idx, col, wt) ->
      ~ (wt <> 0 /\ col = color s) ->
      enter_class s i idx col wt = (idx1, col1) ->
      nblocks s <> 0 ->
      col1 / nblocks s < max_iterations s ->
      color_blocks s !! Z.to_nat (col1 mod nblocks s) = Some block ->
      Z.of_nat (length block) <= idx1 ->
      atomic_inc (waiting s) = ncpus s ->
      step s i WAITING None
        (set_color (atomic_inc (color s))
          (set_waiting 0 (put_cursor i idx1 col1 1 s))).

(** What [ret_task] holds after a call that handed out [ov]. *)
Definition returned_task (s : scheduler) (ret_task : update_task)
    (ov : option Z) : update_task :=
  match ov with
  | Some v => UpdateTask v (update_function s)
  | None => ret_task
  end.

(** ** Well-formed and reachable schedulers *)

(** The three per-worker vectors have one size (the constructor makes them
    so), the sizes fit the address space, and no class lists a vertex
    twice. *)
Record well_formed (s : scheduler) : Prop := WellFormed {
  wf_color : length (cpu_color s) = length (cpu_index s);
  wf_waiting : length (cpu_waiting s) = length (cpu_index s);
  wf_ncpus : 2 * ncpus s <= SizeT.modulus;
  wf_blocks :
    Forall (fun b => Z.of_nat (length b) + ncpus s <= SizeT.modulus)
      (color_blocks s);
  wf_nodup : Forall NoDup (color_blocks s)
}.

(** The states of a run: [start] on a well-formed scheduler, then any
    interleaving of the workers' calls and of the engine's calls. *)
Inductive reachable : scheduler -> Prop :=
  | reach_start s s' :
      well_formed s -> start s = Done s' -> reachable s'
  | reach_next s cpuid t st t' s' :
      reachable s -> get_next_task cpuid t s = Done (st, t', s') ->
      reachable s'
  | reach_completed_task s cpuid t :
      reachable s -> reachable (completed_task cpuid t s)
  | reach_add_task s t p :
      reachable s -> reachable (add_task t p s)
  | reach_add_tasks s vs f p :
      reachable s -> reachable (add_tasks vs f p s)
  | reach_add_task_to_all s f p :
      reachable s -> reachable (add_task_to_all f p s)
  | reach_stop s :
      reachable s -> reachable (stop s)
  | reach_abort s :
      reachable s -> reachable (abort s).

(** The states that follow a call of [abort] within a run. *)
Inductive aborted : scheduler -> Prop :=
  | aborted_abort s :
      aborted (abort s)
  | aborted_next s cpuid t st t' s' :
      aborted s -> get_next_task cpuid t s = Done (st, t', s') ->
      aborted s'
  | aborted_completed_task s cpuid t :
      aborted s -> aborted (completed_task cpuid t s)
  | aborted_add_task s t p :
      aborted s -> aborted (add_task t p s)
  | aborted_add_tasks s vs f p :
      aborted s -> aborted (add_tasks vs f p s)
  | aborted_add_task_to_all s f p :
      aborted s -> aborted (add_task_to_all f p s)
  | aborted_set_option s opt v s' :
      aborted s -> set_option opt v s = Done s' -> aborted s'
  | aborted_stop s :
      aborted s -> aborted (stop s)
  | aborted_again s :
      aborted s -> aborted (abort s).

(** ** The invariant of a run *)

(** Worker [i] is parked on the current epoch: it waits, and the epoch it
    observed is the shared one. *)
Definition is_parked (s : scheduler) (i : nat) : bool :=
  match cursor s i with
  | Some (_, col, wt) => negb (wt =? 0) && (col =? color s)
  | None => false
  end.

Fixpoint count_below (p : nat -> bool) (n : nat) : nat :=
  match n with
  | O => O
  | S m => ((if p m then 1 else 0) + count_below p m)%nat
  end.

Definition count_parked (s : scheduler) : nat :=
  count_below (is_parked s) (length (cpu_index s)).

(** An offset that was seeded by [start] or taken from inside a class. *)
Definition fits (s : scheduler) (idx : Z) : Prop :=
  idx < ncpus s \/
  Exists (fun b => idx < Z.of_nat (length b)) (color_blocks s).

(** A worker is out of budget once the epoch of its cursor has reached
    [max_iterations] iterations; it then answers COMPLETE for ever. *)
Definition out_of_budget (s : scheduler) (col wt : Z) : Prop :=
  wt = 0 /\ max_iterations s <= col / nblocks s.

Definition cursor_ok (s : scheduler) (i : nat) (idx col wt : Z) : Prop :=
  (wt = 0 -> col = color s) /\
  (wt <> 0 -> col / nblocks s < max_iterations s) /\
  (out_of_budget s col wt \/
   (0 <= idx /\ idx mod ncpus s = Z.of_nat i /\ (wt = 0 -> fits s idx))).

Record invariant (s : scheduler) : Prop := Invariant {
  inv_wf : well_formed s;
  inv_cursors : forall i idx col wt,
    cursor s i = Some (idx, col, wt) -> cursor_ok s i idx col wt;
  inv_waiting : waiting s = Z.of_nat (count_parked s)
}.

(** What [start] leaves alone. *)
Definition same_setup (s s' : scheduler) : Prop :=
  color_blocks s' = color_blocks s /\
  max_iterations s' = max_iterations s /\
  update_function s' = update_function s /\
  color s' = color s /\
  length (cpu_index s') = length (cpu_index s).

(** A color class built from the vertices [seen] so far. *)
Definition class_of (seen : list Z) (block : list Z) : Prop :=
  NoDup block /\ (forall x, x ∈ block -> x ∈ seen) /\
  (length block <= length seen)%nat.

(** A graph without vertices. *)
Definition empty_graph : graph := Graph 0 (fun _ => 0).

(** ** The states of the specification's scenario *)

(** The scheduler of the scenario once configured, and the states it goes
    through when the two workers call in turn. *)
Definition demo_ready : scheduler :=
  set_max_iterations 1
    (add_task_to_all 77 unit_priority (colored_scheduler two_color_graph 2 false)).

Definition demo_started : scheduler :=
  Scheduler [[0; 1]; [2; 3]] [0; 1] [0; 0] [0; 0] 1 77 false 0 0.

(** Worker 0 has overrun class A. *)
Definition demo_parked : scheduler :=
  Scheduler [[0; 1]; [2; 3]] [2; 1] [0; 0] [1; 0] 1 77 false 0 1.

(** Worker 1 has overrun class A too: the epoch is 1. *)
Definition demo_advanced : scheduler :=
  Scheduler [[0; 1]; [2; 3]] [2; 3] [0; 0] [1; 1] 1 77 false 1 0.

(** Worker 0 was handed vertex 2 of class B. *)
Definition demo_class_b : scheduler :=
  Scheduler [[0; 1]; [2; 3]] [0; 3] [1; 0] [0; 1] 1 77 false 1 0.

(** Worker 1 was handed vertex 3 of class B. *)
Definition demo_class_b_done : scheduler :=
  Scheduler [[0; 1]; [2; 3]] [0; 1] [1; 1] [0; 0] 1 77 false 1 0.

(** Worker 0 has overrun class B. *)
Definition demo_parked_b : scheduler :=
  Scheduler [[0; 1]; [2; 3]] [2; 1] [1; 1] [1; 0] 1 77 false 1 1.

(** Worker 1 has overrun class B: the epoch is 2, one full iteration. *)
Definition demo_exhausted : scheduler :=
  Scheduler [[0; 1]; [2; 3]] [2; 3] [1; 1] [1; 1] 1 77 false 2 0.

(** The other scenario of the specification: one color class that holds
    all (here seven) vertices, three workers, two iterations. *)
Definition one_color_graph : graph := Graph 7 (fun _ => 0).

(** ** The vertices of an epoch, and rounds of calls *)

(** The classes built from the vertices [seen]: class [c] lists the seen
    vertices of color [c] in the order they were seen, every color seen
    has its class, and the last class is not empty. *)
Definition classes_of (g : graph) (seen : list Z) (blocks : list (list Z))
  : Prop :=
  (forall c b, blocks !! c = Some b ->
     b = filter (fun v => color_of g v = Z.of_nat c) seen) /\
  (forall v, v ∈ seen -> color_of g v < Z.of_nat (length blocks)) /\
  (blocks <> [] ->
   exists v, v ∈ seen /\ color_of g v = Z.of_nat (length blocks) - 1).


(** The class of the current epoch. *)
Definition current_class (s : scheduler) : list Z :=
  default [] (color_blocks s !! Z.to_nat (color s mod nblocks s)).

(** The vertices a call hands out: one for NEWTASK, none otherwise. *)
Definition handed (st : status_enum) (task : update_task) : list Z :=
  match st with
  | NEWTASK => [vertex task]
  | _ => []
  end.

(** Calls of [get_next_task] that all stay within one epoch: the workers
    that call, in order, the vertices they are handed, in order, and the
    scheduler after the last call. *)
Inductive epoch_calls : scheduler -> list Z -> list Z -> scheduler -> Prop :=
  | epoch_calls_nil s :
      epoch_calls s [] [] s
  | epoch_calls_cons s cpuid t st t' s1 rest vs s' :
      get_next_task cpuid t s = Done (st, t', s1) ->
      color s1 = color s ->
      epoch_calls s1 rest vs s' ->
      epoch_calls s (cpuid :: rest) (handed st t' ++ vs) s'.

(** A whole epoch, from some state of it to the call that advances the
    shared epoch. *)
Inductive epoch_run : scheduler -> list Z -> list Z -> scheduler -> Prop :=
  | epoch_run_intro s calls vs s1 cpuid t st t' s' :
      epoch_calls s calls vs s1 ->
      get_next_task cpuid t s1 = Done (st, t', s') ->
      color s' <> color s1 ->
      epoch_run s (calls ++ [cpuid]) vs s'.

(** Offset [o] of the current class is still to be handed out: it is the
    business of worker [o mod ncpus], which has either not entered the
    epoch yet, or is active in it at an offset below [o]. *)
Definition owes (s : scheduler) (o : Z) : bool :=
  match cursor s (Z.to_nat (o mod ncpus s)) with
  | Some (idx, col, wt) =>
      if wt =? 0 then idx <? o else negb (col =? color s)
  | None => false
  end.

Definition owed_offsets (s : scheduler) : list Z :=
  filter (fun o => owes s o = true)
    (seqZ 0 (Z.of_nat (length (current_class s)))).

Definition owed_vertices (s : scheduler) : list Z :=
  (fun o => nth (Z.to_nat o) (current_class s) 0) <$> owed_offsets s.


(** [n] rounds in which the given workers call one after the other. *)
Fixpoint rounds (n : nat) (workers : list Z) : list Z :=
  match n with
  | O => []
  | S m => workers ++ rounds m workers
  end.

(** What is left to do in the current epoch: the offsets still owed, and
    the workers that are not yet parked on it. *)
Definition pending (s : scheduler) : nat :=
  (length (owed_offsets s) + (length (cpu_index s) - count_parked s))%nat.

(** The epochs left until the iteration budget is used up. *)
Definition epochs_left (s : scheduler) : nat :=
  Z.to_nat (max_iterations s * nblocks s - color s).

(** * Properties *)

(** ** Fallible vector accesses *)

Lemma bind_Done {A B : Type} (m : outcome A) (k : A -> outcome B) (b : B) :
  (x ← m; k x) = Done b -> exists a, m = Done a /\ k a = Done b.
Proof. destruct m as [a|f]; simpl; [eauto | discriminate]. Qed.

Lemma vec_at_Done {A : Type} (v : list A) (i : Z) (x : A) :
  vec_at v i = Done x <-> 0 <= i /\ v !! Z.to_nat i = Some x.
Proof.
  unfold vec_at. destruct (Z.leb_spec 0 i) as [Hi|Hi].
  - destruct (v !! Z.to_nat i) as [y|]; split.
    + intros [= ->]. auto.
    + intros [_ [= ->]]. reflexivity.
    + discriminate.
    + intros [_ [=]].
  - split; [discriminate | lia].
Qed.

Lemma vec_at_of_nat {A : Type} (v : list A) (i : nat) (x : A) :
  v !! i = Some x -> vec_at v (Z.of_nat i) = Done x.
Proof. intros H. apply vec_at_Done. rewrite Nat2Z.id. split; [lia | exact H]. Qed.

Lemma vec_set_Done {A : Type} (v v' : list A) (i : Z) (x : A) :
  vec_set v i x = Done v' <->
  0 <= i < Z.of_nat (length v) /\ v' = <[Z.to_nat i := x]> v.
Proof.
  unfold vec_set.
  destruct (Z.leb_spec 0 i), (Z.ltb_spec i (Z.of_nat (length v))); simpl; split;
    try discriminate; try (intros [? _]; lia).
  - intros [= <-]. auto.
  - intros [_ ->]. reflexivity.
Qed.

Lemma vec_set_of_nat {A : Type} (v : list A) (i : nat) (x : A) :
  (i < length v)%nat -> vec_set v (Z.of_nat i) x = Done (<[i := x]> v).
Proof. intros H. apply vec_set_Done. rewrite Nat2Z.id. split; [lia | reflexivity]. Qed.

Lemma umod_Done (a b r : Z) : umod a b = Done r <-> b <> 0 /\ r = a mod b.
Proof.
  unfold umod. destruct (Z.eqb_spec b 0); split; try discriminate.
  - intros [? _]. contradiction.
  - intros [= <-]. auto.
  - intros [_ ->]. reflexivity.
Qed.

Lemma udiv_Done (a b r : Z) : udiv a b = Done r <-> b <> 0 /\ r = a / b.
Proof.
  unfold udiv. destruct (Z.eqb_spec b 0); split; try discriminate.
  - intros [? _]. contradiction.
  - intros [= <-]. auto.
  - intros [_ ->]. reflexivity.
Qed.

(** Invert one bind of a successful computation. *)
Ltac invert_bind H :=
  let a := fresh "a" in
  let Ha := fresh "Hget" in
  apply bind_Done in H; destruct H as (a & Ha & H).

(** ** Wrap-around *)

Lemma wrap_small (x : Z) : 0 <= x < SizeT.modulus -> SizeT.wrap x = x.
Proof. intros H. unfold SizeT.wrap. apply Z.mod_small. exact H. Qed.

Lemma modulus_pos : 0 < SizeT.modulus.
Proof. reflexivity. Qed.

Lemma atomic_inc_changes (v : Z) : atomic_inc v <> v.
Proof.
  unfold atomic_inc, SizeT.wrap. intros H.
  pose proof modulus_pos as Hm.
  pose proof (Z.div_mod (v + 1) SizeT.modulus) as Hdm.
  rewrite H in Hdm.
  assert (Hq : SizeT.modulus * ((v + 1) / SizeT.modulus) = 1) by lia.
  assert (Hd : SizeT.modulus = 1 \/ SizeT.modulus = -1)
    by (eapply Z.eq_mul_1; exact Hq).
  destruct Hd as [Hd|Hd]; discriminate Hd.
Qed.

(** ** Cursors *)

Lemma cursor_Some (s : scheduler) (i : nat) (idx col wt : Z) :
  cursor s i = Some (idx, col, wt) <->
  cpu_index s !! i = Some idx /\ cpu_color s !! i = Some col /\
  cpu_waiting s !! i = Some wt.
Proof.
  unfold cursor.
  destruct (cpu_index s !! i) as [a|], (cpu_color s !! i) as [b|],
    (cpu_waiting s !! i) as [c|]; simpl; split;
    try discriminate; try (intros (? & ? & ?); discriminate).
  - intros [= -> -> ->]. auto.
  - intros ([= ->] & [= ->] & [= ->]). reflexivity.
Qed.

Lemma cursor_lt (s : scheduler) (i : nat) (c : Z * Z * Z) :
  cursor s i = Some c -> (i < length (cpu_index s))%nat.
Proof.
  destruct c as [[idx col] wt]. intros H. apply cursor_Some in H.
  destruct H as (H & _). eapply lookup_lt_Some, H.
Qed.

Lemma cursor_exists (s : scheduler) (i : nat) :
  well_formed s -> (i < length (cpu_index s))%nat ->
  exists idx col wt, cursor s i = Some (idx, col, wt).
Proof.
  intros Hwf Hi.
  destruct (lookup_lt_is_Some_2 (cpu_index s) i Hi) as [idx Hidx].
  destruct (lookup_lt_is_Some_2 (cpu_color s) i) as [col Hcol];
    [rewrite (wf_color s Hwf); exact Hi|].
  destruct (lookup_lt_is_Some_2 (cpu_waiting s) i) as [wt Hwt];
    [rewrite (wf_waiting s Hwf); exact Hi|].
  exists idx, col, wt. apply cursor_Some. auto.
Qed.

Lemma cursor_put_cursor_eq (s : scheduler) (i : nat) (idx col wt : Z) :
  well_formed s -> (i < length (cpu_index s))%nat ->
  cursor (put_cursor i idx col wt s) i = Some (idx, col, wt).
Proof.
  intros Hwf Hi. apply cursor_Some. simpl.
  rewrite !list_lookup_insert_eq; auto.
  - rewrite (wf_waiting s Hwf). exact Hi.
  - rewrite (wf_color s Hwf). exact Hi.
Qed.

Lemma cursor_put_cursor_ne (s : scheduler) (i j : nat) (idx col wt : Z) :
  i <> j -> cursor (put_cursor i idx col wt s) j = cursor s j.
Proof.
  intros Hne. unfold cursor. simpl.
  rewrite !list_lookup_insert_ne by assumption. reflexivity.
Qed.

(** ** Every call of [get_next_task] is a step *)

Lemma dispatch_step (s0 s : scheduler) (i : nat) (t : update_task)
    (idx col wt idx1 col1 : Z) (r : status_enum * update_task * scheduler) :
  well_formed s0 ->
  completed s0 = false ->
  cursor s0 i = Some (idx, col, wt) ->
  ~ (wt <> 0 /\ col = color s0) ->
  enter_class s0 i idx col wt = (idx1, col1) ->
  s = put_cursor i idx1 col1 0 s0 ->
  dispatch (Z.of_nat i) t s = Done r ->
  exists st ov s',
    r = (st, returned_task s0 t ov, s') /\ step s0 i st ov s'.
Proof.
  intros Hwf Hrun Hcur Hfree Henter -> H.
  pose proof (cursor_lt _ _ _ Hcur) as Hi.
  pose proof (cursor_put_cursor_eq s0 i idx1 col1 0 Hwf Hi) as Hcur1.
  apply cursor_Some in Hcur1. destruct Hcur1 as (Hidx1 & Hcol1 & Hwt1).
  unfold dispatch in H.
  invert_bind H. apply vec_at_Done in Hget. rewrite Nat2Z.id in Hget.
  destruct Hget as [_ Hget]. rewrite Hcol1 in Hget. injection Hget as <-.
  invert_bind H. apply umod_Done in Hget. destruct Hget as [Hnb ->].
  invert_bind H. apply udiv_Done in Hget. destruct Hget as [_ ->].
  change (nblocks (put_cursor i idx1 col1 0 s0)) with (nblocks s0) in *.
  change (max_iterations (put_cursor i idx1 col1 0 s0))
    with (max_iterations s0) in H.
  destruct (Z.leb_spec (max_iterations s0) (col1 / nblocks s0)) as [Hk|Hk].
  { injection H as <-. exists COMPLETE, None, (put_cursor i idx1 col1 0 s0).
    split; [reflexivity|]. eapply step_budget; eauto. }
  invert_bind H. apply vec_at_Done in Hget. rewrite Nat2Z.id in Hget.
  destruct Hget as [_ Hget]. rewrite Hidx1 in Hget. injection Hget as <-.
  invert_bind H. apply vec_at_Done in Hget. destruct Hget as [_ Hblock].
  change (color_blocks (put_cursor i idx1 col1 0 s0))
    with (color_blocks s0) in Hblock.
  rename a into block.
  destruct (Z.ltb_spec idx1 (Z.of_nat (length block))) as [Hlt|Hge].
  { invert_bind H. apply vec_at_Done in Hget. destruct Hget as [Hpos Hv].
    injection H as <-. exists NEWTASK, (Some a), (put_cursor i idx1 col1 0 s0).
    split; [reflexivity|]. eapply step_newtask; eauto. }
  invert_bind H. apply vec_set_Done in Hget. rewrite Nat2Z.id in Hget.
  destruct Hget as [_ ->].
  change (waiting (put_cursor i idx1 col1 0 s0)) with (waiting s0) in H.
  assert (Hput : forall n,
    set_cpu_waiting
      (<[i:=1]> (cpu_waiting (set_waiting n (put_cursor i idx1 col1 0 s0))))
      (set_waiting n (put_cursor i idx1 col1 0 s0))
    = set_waiting n (put_cursor i idx1 col1 1 s0)).
  { intros n. unfold put_cursor, set_waiting, set_cpu_waiting, set_cpu_index,
      set_cpu_color. simpl. rewrite list_insert_insert_eq. reflexivity. }
  rewrite Hput in H.
  change (ncpus (set_waiting (atomic_inc (waiting s0))
                   (put_cursor i idx1 col1 1 s0))) with
    (Z.of_nat (length (<[i:=idx1]> (cpu_index s0)))) in H.
  rewrite length_insert in H. fold (ncpus s0) in H.
  destruct (Z.eqb_spec (atomic_inc (waiting s0)) (ncpus s0)) as [Heq|Hne].
  - injection H as <-.
    exists WAITING, None,
      (set_color (atomic_inc (color s0))
         (set_waiting 0 (put_cursor i idx1 col1 1 s0))).
    split; [reflexivity|].
    eapply (step_advance s0 i idx col wt idx1 col1 block); eauto.
  - injection H as <-.
    exists WAITING, None,
      (set_waiting (atomic_inc (waiting s0)) (put_cursor i idx1 col1 1 s0)).
    split; [reflexivity|].
    eapply (step_overrun s0 i idx col wt idx1 col1 block); eauto.
Qed.

Lemma get_next_task_step (s : scheduler) (cpuid : Z) (t : update_task)
    (r : status_enum * update_task * scheduler) :
  well_formed s ->
  get_next_task cpuid t s = Done r ->
  exists st ov s',
    r = (st, returned_task s t ov, s') /\
    ((completed s = true /\ st = COMPLETE /\ ov = None /\ s' = s) \/
     (completed s = false /\
      exists i, cpuid = Z.of_nat i /\ step s i st ov s')).
Proof.
  intros Hwf H. unfold get_next_task in H.
  destruct (completed s) eqn:Hrun.
  { injection H as <-. exists COMPLETE, None, s. split; [reflexivity|].
    left. auto. }
  invert_bind H. apply vec_at_Done in Hget. destruct Hget as [Hpos Hwt].
  rename a into wt.
  set (i := Z.to_nat cpuid) in *.
  assert (Hcpu : cpuid = Z.of_nat i) by (subst i; lia).
  pose proof (lookup_lt_Some _ _ _ Hwt) as Hi.
  rewrite (wf_waiting s Hwf) in Hi.
  destruct (cursor_exists s i Hwf Hi) as (idx & col & wt' & Hcur).
  pose proof Hcur as Hcur'. apply cursor_Some in Hcur'.
  destruct Hcur' as (Hidx & Hcol & Hwt').
  rewrite Hwt in Hwt'. injection Hwt' as <-.
  destruct (Z.eqb_spec wt 0) as [Hz|Hnz]; simpl in H.
  - (* the worker is active: the offset advances by the worker count *)
    invert_bind H. apply vec_at_Done in Hget. destruct Hget as [_ Hget].
    fold i in Hget. rewrite Hidx in Hget. injection Hget as <-.
    invert_bind H. apply vec_set_Done in Hget. destruct Hget as [_ ->].
    fold i in H.
    assert (Hs1 : put_cursor i (SizeT.wrap (idx + ncpus s)) col 0 s
                  = set_cpu_index
                      (<[i:=SizeT.wrap (idx + ncpus s)]> (cpu_index s)) s).
    { unfold put_cursor, set_cpu_waiting, set_cpu_index, set_cpu_color. simpl.
      rewrite (list_insert_id (cpu_color s)) by assumption.
      rewrite (list_insert_id (cpu_waiting s)) by (subst wt; assumption).
      reflexivity. }
    rewrite <- Hs1, Hcpu in H.
    eapply dispatch_step in H; eauto.
    + destruct H as (st & ov & s' & -> & Hstep).
      exists st, ov, s'. split; [reflexivity|]. right. eauto.
    + intros [Hc _]. contradiction.
    + unfold enter_class. subst wt. reflexivity.
  - (* the worker waits *)
    invert_bind H. apply vec_at_Done in Hget. destruct Hget as [_ Hget].
    fold i in Hget. rewrite Hcol in Hget. injection Hget as <-.
    destruct (Z.eqb_spec col (color s)) as [Hsame|Hnew].
    { injection H as <-. exists WAITING, None, s. split; [reflexivity|].
      right. split; [reflexivity|]. exists i. split; [assumption|].
      eapply step_held; eauto. }
    invert_bind H. apply vec_set_Done in Hget. destruct Hget as [_ ->].
    invert_bind H. apply vec_set_Done in Hget. destruct Hget as [_ ->].
    invert_bind H. apply vec_set_Done in Hget. destruct Hget as [_ ->].
    fold i in H.
    change (set_cpu_waiting (<[i:=0]> (cpu_waiting s))
              (set_cpu_index (<[i:=cpuid]> (cpu_index s))
                 (set_cpu_color (<[i:=color s]> (cpu_color s)) s)))
      with (put_cursor i cpuid (color s) 0 s) in H.
    rewrite Hcpu in H.
    eapply dispatch_step in H; eauto.
    + destruct H as (st & ov & s' & -> & Hstep).
      exists st, ov, s'. split; [reflexivity|]. right. eauto.
    + intros [_ Hc]. contradiction.
    + unfold enter_class. destruct (Z.eqb_spec wt 0); [contradiction|].
      reflexivity.
Qed.

(** ** Every step is a call of [get_next_task] *)

Lemma get_next_task_enter (s : scheduler) (i : nat) (t : update_task)
    (idx col wt idx1 col1 : Z) :
  well_formed s ->
  completed s = false ->
  cursor s i = Some (idx, col, wt) ->
  ~ (wt <> 0 /\ col = color s) ->
  enter_class s i idx col wt = (idx1, col1) ->
  get_next_task (Z.of_nat i) t s
  = dispatch (Z.of_nat i) t (put_cursor i idx1 col1 0 s).
Proof.
  intros Hwf Hrun Hcur Hfree Henter.
  pose proof (cursor_lt _ _ _ Hcur) as Hi.
  apply cursor_Some in Hcur. destruct Hcur as (Hidx & Hcol & Hwt).
  unfold get_next_task. rewrite Hrun.
  rewrite (vec_at_of_nat _ _ _ Hwt). simpl.
  unfold enter_class in Henter.
  destruct (Z.eqb_spec wt 0) as [Hz|Hnz]; simpl.
  - injection Henter as <- <-.
    rewrite (vec_at_of_nat _ _ _ Hidx). simpl.
    rewrite vec_set_of_nat by assumption. simpl.
    f_equal. unfold put_cursor, set_cpu_waiting, set_cpu_index, set_cpu_color.
    simpl. rewrite (list_insert_id (cpu_color s)) by assumption.
    rewrite (list_insert_id (cpu_waiting s)) by (subst wt; assumption).
    reflexivity.
  - injection Henter as <- <-.
    rewrite (vec_at_of_nat _ _ _ Hcol). simpl.
    destruct (Z.eqb_spec col (color s)) as [Hsame|Hnew];
      [exfalso; apply Hfree; auto|].
    rewrite !vec_set_of_nat;
      rewrite ?(wf_color s Hwf), ?(wf_waiting s Hwf); try assumption.
    reflexivity.
Qed.

Lemma dispatch_put_cursor (s : scheduler) (i : nat) (t : update_task)
    (idx1 col1 : Z) :
  well_formed s -> (i < length (cpu_index s))%nat -> nblocks s <> 0 ->
  dispatch (Z.of_nat i) t (put_cursor i idx1 col1 0 s)
  = if max_iterations s <=? col1 / nblocks s
    then Done (COMPLETE, t, put_cursor i idx1 col1 0 s)
    else
      block ← vec_at (color_blocks s) (col1 mod nblocks s);
      if idx1 <? Z.of_nat (length block) then
        v ← vec_at block idx1;
        Done (NEWTASK, UpdateTask v (update_function s),
              put_cursor i idx1 col1 0 s)
      else if atomic_inc (waiting s) =? ncpus s then
        Done (WAITING, t,
              set_color (atomic_inc (color s))
                (set_waiting 0 (put_cursor i idx1 col1 1 s)))
      else
        Done (WAITING, t,
              set_waiting (atomic_inc (waiting s)) (put_cursor i idx1 col1 1 s)).
Proof.
  intros Hwf Hi Hnb.
  pose proof (cursor_put_cursor_eq s i idx1 col1 0 Hwf Hi) as Hcur1.
  apply cursor_Some in Hcur1. destruct Hcur1 as (Hidx1 & Hcol1 & Hwt1).
  unfold dispatch. rewrite (vec_at_of_nat _ _ _ Hcol1).
  rewrite (vec_at_of_nat _ _ _ Hidx1).
  change (nblocks (put_cursor i idx1 col1 0 s)) with (nblocks s).
  unfold umod, udiv. destruct (Z.eqb_spec (nblocks s) 0); [contradiction|].
  simpl. destruct (max_iterations s <=? col1 / nblocks s); [reflexivity|].
  destruct (vec_at (color_blocks s) (col1 mod nblocks s)) as [block|];
    [simpl | reflexivity].
  destruct (idx1 <? Z.of_nat (length block)); [reflexivity|].
  rewrite vec_set_of_nat
    by (rewrite length_insert, (wf_waiting s Hwf); assumption).
  simpl. rewrite list_insert_insert_eq.
  unfold ncpus. simpl. rewrite length_insert. reflexivity.
Qed.

Lemma step_get_next_task (s s' : scheduler) (i : nat) (t : update_task)
    (st : status_enum) (ov : option Z) :
  well_formed s ->
  step s i st ov s' ->
  get_next_task (Z.of_nat i) t s = Done (st, returned_task s t ov, s').
Proof.
  intros Hwf Hstep.
  assert (Hblk : forall col1 block, nblocks s <> 0 ->
    color_blocks s !! Z.to_nat (col1 mod nblocks s) = Some block ->
    vec_at (color_blocks s) (col1 mod nblocks s) = Done block).
  { intros col1 block Hnb Hblock. apply vec_at_Done. split; [|assumption].
    apply Z.mod_pos_bound. unfold nblocks in *. lia. }
  destruct Hstep as
    [ Hrun
    | idx col wt Hrun Hcur Hnz Hsame
    | idx col wt idx1 col1 Hrun Hcur Hfree Henter Hnb Hk
    | idx col wt idx1 col1 block v Hrun Hcur Hfree Henter Hnb Hk Hblock Hlt Hv
    | idx col wt idx1 col1 block Hrun Hcur Hfree Henter Hnb Hk Hblock Hge Hinc
    | idx col wt idx1 col1 block Hrun Hcur Hfree Henter Hnb Hk Hblock Hge Hinc ];
    try (erewrite get_next_task_enter by eassumption;
         rewrite dispatch_put_cursor
           by (try assumption; eapply cursor_lt; eassumption)).
  - unfold get_next_task. rewrite Hrun. reflexivity.
  - apply cursor_Some in Hcur. destruct Hcur as (Hidx & Hcol & Hwt).
    unfold get_next_task. rewrite Hrun.
    rewrite (vec_at_of_nat _ _ _ Hwt). simpl.
    destruct (Z.eqb_spec wt 0); [contradiction|]. simpl.
    rewrite (vec_at_of_nat _ _ _ Hcol). simpl.
    destruct (Z.eqb_spec col (color s)); [reflexivity | contradiction].
  - destruct (Z.leb_spec (max_iterations s) (col1 / nblocks s));
      [reflexivity | lia].
  - destruct (Z.leb_spec (max_iterations s) (col1 / nblocks s)); [lia|].
    rewrite (Hblk col1 block) by assumption. simpl.
    destruct (Z.ltb_spec idx1 (Z.of_nat (length block))); [|lia].
    assert (Hv' : vec_at block idx1 = Done v)
      by (apply vec_at_Done; split; [lia | assumption]).
    rewrite Hv'. reflexivity.
  - destruct (Z.leb_spec (max_iterations s) (col1 / nblocks s)); [lia|].
    rewrite (Hblk col1 block) by assumption. simpl.
    destruct (Z.ltb_spec idx1 (Z.of_nat (length block))); [lia|].
    destruct (Z.eqb_spec (atomic_inc (waiting s)) (ncpus s));
      [contradiction | reflexivity].
  - destruct (Z.leb_spec (max_iterations s) (col1 / nblocks s)); [lia|].
    rewrite (Hblk col1 block) by assumption. simpl.
    destruct (Z.ltb_spec idx1 (Z.of_nat (length block))); [lia|].
    destruct (Z.eqb_spec (atomic_inc (waiting s)) (ncpus s));
      [reflexivity | contradiction].
Qed.

Lemma wrap_nonneg (x : Z) : 0 <= SizeT.wrap x < SizeT.modulus.
Proof. apply Z.mod_pos_bound, modulus_pos. Qed.

Lemma enter_class_nonneg (s : scheduler) (i : nat) (idx col wt idx1 col1 : Z) :
  enter_class s i idx col wt = (idx1, col1) -> 0 <= idx1.
Proof.
  unfold enter_class. destruct (wt =? 0); intros [= <- <-].
  - apply wrap_nonneg.
  - lia.
Qed.

(** A valid worker's call never faults once there is a color class. *)
Lemma step_total (s : scheduler) (i : nat) :
  well_formed s -> (i < length (cpu_index s))%nat -> nblocks s <> 0 ->
  exists st ov s', step s i st ov s'.
Proof.
  intros Hwf Hi Hnb.
  destruct (completed s) eqn:Hrun.
  { exists COMPLETE, None, s. apply step_completed. assumption. }
  destruct (cursor_exists s i Hwf Hi) as (idx & col & wt & Hcur).
  destruct (Z.eq_dec wt 0) as [Hz|Hnz], (Z.eq_dec col (color s)) as [Hc|Hc];
    try (exists WAITING, None, s; eapply step_held; eauto; fail).
  all: destruct (enter_class s i idx col wt) as [idx1 col1] eqn:Henter.
  all: assert (Hfree : ~ (wt <> 0 /\ col = color s))
         by (intros [? ?]; contradiction).
  all: pose proof (enter_class_nonneg _ _ _ _ _ _ _ Henter) as Hpos.
  all: destruct (Z_le_gt_dec (max_iterations s) (col1 / nblocks s)) as [Hk|Hk];
         [do 3 eexists; eapply step_budget; eauto; fail|].
  all: assert (Hin : (Z.to_nat (col1 mod nblocks s) < length (color_blocks s))%nat)
         by (pose proof (Z.mod_pos_bound col1 (nblocks s)); unfold nblocks in *; lia).
  all: destruct (lookup_lt_is_Some_2 _ _ Hin) as [block Hblock].
  all: destruct (Z_lt_le_dec idx1 (Z.of_nat (length block))) as [Hlt|Hge].
  all: try (destruct (lookup_lt_is_Some_2 block (Z.to_nat idx1)) as [v Hv];
            [lia|]; do 3 eexists; eapply step_newtask; eauto; lia).
  all: destruct (Z.eq_dec (atomic_inc (waiting s)) (ncpus s));
         do 3 eexists; [eapply step_advance | eapply step_overrun]; eauto; lia.
Qed.

(** ** Well-formedness is preserved *)

Lemma well_formed_put_cursor (s : scheduler) (i : nat) (idx col wt : Z) :
  well_formed s -> well_formed (put_cursor i idx col wt s).
Proof.
  intros [Hc Hw Hn Hb Hd]. split; unfold ncpus in *; simpl;
    rewrite ?length_insert; assumption.
Qed.

Lemma well_formed_step (s s' : scheduler) (i : nat) (st : status_enum)
    (ov : option Z) :
  well_formed s -> step s i st ov s' -> well_formed s'.
Proof.
  intros Hwf Hstep. destruct Hstep; try assumption;
    try (apply well_formed_put_cursor; assumption).
  - apply (well_formed_put_cursor s i idx1 col1 1) in Hwf.
    destruct Hwf as [Hc Hw Hn Hb Hd]. split; assumption.
  - apply (well_formed_put_cursor s i idx1 col1 1) in Hwf.
    destruct Hwf as [Hc Hw Hn Hb Hd]. split; assumption.
Qed.

Lemma well_formed_set_update_function (s : scheduler) (f : Z) :
  well_formed s -> well_formed (set_update_function f s).
Proof. intros [Hc Hw Hn Hb Hd]. split; assumption. Qed.

Lemma well_formed_set_max_iterations (s : scheduler) (k : Z) :
  well_formed s -> well_formed (set_max_iterations k s).
Proof. intros [Hc Hw Hn Hb Hd]. split; assumption. Qed.

Lemma well_formed_set_completed (s : scheduler) (b : bool) :
  well_formed s -> well_formed (set_completed b s).
Proof. intros [Hc Hw Hn Hb Hd]. split; assumption. Qed.

Lemma well_formed_set_waiting (s : scheduler) (n : Z) :
  well_formed s -> well_formed (set_waiting n s).
Proof. intros [Hc Hw Hn Hb Hd]. split; assumption. Qed.

(** ** [start] seeds every cursor *)

Lemma start_round_put_cursor (s : scheduler) (i : nat) :
  well_formed s -> (i < length (cpu_index s))%nat ->
  start_round s (Z.of_nat i)
  = Done (put_cursor i (Z.of_nat i) (color s) 0 s).
Proof.
  intros Hwf Hi. unfold start_round.
  rewrite (vec_set_of_nat (cpu_index s)) by assumption. simpl.
  rewrite (vec_set_of_nat (cpu_color s))
    by (rewrite (wf_color s Hwf); assumption).
  simpl.
  rewrite (vec_set_of_nat (cpu_waiting s))
    by (rewrite (wf_waiting s Hwf); assumption).
  reflexivity.
Qed.

Lemma for_each_start_round (range : list nat) (s : scheduler) :
  well_formed s ->
  Forall (fun i => (i < length (cpu_index s))%nat) range ->
  exists s',
    for_each start_round (Z.of_nat <$> range) s = Done s' /\
    well_formed s' /\ same_setup s s' /\
    completed s' = completed s /\ waiting s' = waiting s /\
    forall j, (j < length (cpu_index s))%nat ->
      cursor s' j = if decide (j ∈ range)
                    then Some (Z.of_nat j, color s, 0)
                    else cursor s j.
Proof.
  intros Hwf Hrange. revert s Hwf Hrange.
  induction range as [|i range IH]; intros s Hwf Hrange.
  - exists s. simpl. split; [reflexivity|]. split; [assumption|].
    split; [unfold same_setup; auto|]. split; [reflexivity|].
    split; [reflexivity|].
    intros j Hj. destruct (decide (j ∈ [])) as [Hin|_]; [|reflexivity].
    apply elem_of_nil in Hin. contradiction.
  - apply Forall_cons in Hrange. destruct Hrange as [Hi Hrange].
    simpl. rewrite start_round_put_cursor by assumption. simpl.
    set (s1 := put_cursor i (Z.of_nat i) (color s) 0 s).
    assert (Hlen : length (cpu_index s1) = length (cpu_index s))
      by (subst s1; simpl; apply length_insert).
    destruct (IH s1) as (s' & Hrun & Hwf' & Hsame & Hcomp & Hwait & Hcur).
    { apply well_formed_put_cursor. assumption. }
    { rewrite Hlen. assumption. }
    exists s'. split; [assumption|]. split; [assumption|].
    destruct Hsame as (Hb & Hk & Hf & Hc & Hl).
    split; [|split; [|split]].
    + unfold same_setup. rewrite Hb, Hk, Hf, Hc, Hl, Hlen. auto.
    + rewrite Hcomp. reflexivity.
    + rewrite Hwait. reflexivity.
    + intros j Hj. rewrite Hcur by (rewrite Hlen; assumption).
      change (color s1) with (color s).
      destruct (decide (j ∈ range)) as [Hin|Hnin].
      * rewrite decide_True by (apply elem_of_cons; auto). reflexivity.
      * destruct (decide (j = i)) as [->|Hne].
        -- rewrite decide_True by (apply elem_of_cons; auto).
           subst s1. apply cursor_put_cursor_eq; assumption.
        -- rewrite decide_False
             by (intros Hin; apply elem_of_cons in Hin; destruct Hin; auto).
           subst s1. apply cursor_put_cursor_ne. auto.
Qed.

Lemma seqZ_of_nat (n : nat) : seqZ 0 (Z.of_nat n) = Z.of_nat <$> seq 0 n.
Proof.
  unfold seqZ. rewrite Nat2Z.id. apply list_fmap_ext. intros ? ? _. lia.
Qed.

(** [start] succeeds on a well-formed scheduler with an update function,
    and leaves every worker active at the offset of its own id, in the
    current epoch. *)
Lemma start_Done (s s' : scheduler) :
  well_formed s -> start s = Done s' ->
  well_formed s' /\ same_setup s s' /\
  completed s' = false /\ waiting s' = 0 /\
  forall j, (j < length (cpu_index s))%nat ->
    cursor s' j = Some (Z.of_nat j, color s, 0).
Proof.
  intros Hwf H. unfold start in H.
  destruct (update_function s =? NULL); [discriminate|].
  unfold ncpus in H. rewrite seqZ_of_nat in H.
  destruct (for_each_start_round (seq 0 (length (cpu_index s))) s Hwf)
    as (s1 & Hrun & Hwf1 & Hsame & _ & _ & Hcur).
  { apply Forall_forall. intros i Hi. apply elem_of_seq in Hi. lia. }
  rewrite Hrun in H. simpl in H. injection H as <-.
  split; [|split; [|split; [|split]]].
  - apply well_formed_set_completed, well_formed_set_waiting. assumption.
  - exact Hsame.
  - reflexivity.
  - reflexivity.
  - intros j Hj. change (cursor (set_completed false (set_waiting 0 s1)) j)
      with (cursor s1 j).
    rewrite Hcur by assumption.
    rewrite decide_True by (apply elem_of_seq; lia). reflexivity.
Qed.

Lemma start_succeeds (s : scheduler) :
  well_formed s -> update_function s <> NULL -> exists s', start s = Done s'.
Proof.
  intros Hwf Hf. unfold start.
  destruct (Z.eqb_spec (update_function s) NULL); [contradiction|].
  unfold ncpus. rewrite seqZ_of_nat.
  destruct (for_each_start_round (seq 0 (length (cpu_index s))) s Hwf)
    as (s1 & Hrun & _).
  { apply Forall_forall. intros i Hi. apply elem_of_seq in Hi. lia. }
  rewrite Hrun. simpl. eauto.
Qed.

(** ** Counting parked workers *)

Lemma count_below_le (p : nat -> bool) (n : nat) : (count_below p n <= n)%nat.
Proof. induction n as [|n IH]; simpl; [lia|]. destruct (p n); lia. Qed.

Lemma count_below_ext (p q : nat -> bool) (n : nat) :
  (forall j, (j < n)%nat -> p j = q j) -> count_below p n = count_below q n.
Proof.
  induction n as [|n IH]; intros H; simpl; [reflexivity|].
  rewrite (H n) by lia. rewrite IH; [reflexivity|]. intros j Hj. apply H. lia.
Qed.

Lemma count_below_none (p : nat -> bool) (n : nat) :
  (forall j, (j < n)%nat -> p j = false) -> count_below p n = O.
Proof.
  induction n as [|n IH]; intros H; simpl; [reflexivity|].
  rewrite (H n) by lia. rewrite IH; [reflexivity|]. intros j Hj. apply H. lia.
Qed.

Lemma count_below_full (p : nat -> bool) (n : nat) :
  count_below p n = n -> forall j, (j < n)%nat -> p j = true.
Proof.
  induction n as [|n IH]; intros H j Hj; [lia|]. simpl in H.
  pose proof (count_below_le p n) as Hle.
  destruct (p n) eqn:Hn; [|lia].
  destruct (decide (j = n)) as [->|Hne]; [assumption|].
  apply IH; lia.
Qed.

(** Turning one entry from [false] to [true] adds one to the count. *)
Lemma count_below_raise (p q : nat -> bool) (n i : nat) :
  (i < n)%nat -> p i = false -> q i = true ->
  (forall j, (j < n)%nat -> j <> i -> q j = p j) ->
  count_below q n = S (count_below p n).
Proof.
  induction n as [|n IH]; intros Hi Hp Hq Hothers; [lia|]. simpl.
  destruct (decide (i = n)) as [->|Hne].
  - rewrite Hp, Hq. simpl. f_equal. apply count_below_ext.
    intros j Hj. apply Hothers; lia.
  - rewrite (Hothers n) by lia. rewrite IH; try assumption; try lia.
    intros j Hj Hji. apply Hothers; lia.
Qed.

Lemma is_parked_true (s : scheduler) (i : nat) :
  is_parked s i = true <->
  exists idx col wt, cursor s i = Some (idx, col, wt) /\ wt <> 0 /\ col = color s.
Proof.
  unfold is_parked. destruct (cursor s i) as [[[idx col] wt]|]; split.
  - intros H. apply andb_true_iff in H. destruct H as [Hw Hc].
    exists idx, col, wt. split; [reflexivity|].
    apply negb_true_iff, Z.eqb_neq in Hw. apply Z.eqb_eq in Hc. auto.
  - intros (idx' & col' & wt' & [= -> -> ->] & Hw & Hc).
    apply andb_true_iff. split.
    + apply negb_true_iff, Z.eqb_neq. assumption.
    + apply Z.eqb_eq. assumption.
  - discriminate.
  - intros (idx' & col' & wt' & [=] & _).
Qed.

Lemma is_parked_false (s : scheduler) (i : nat) (idx col wt : Z) :
  cursor s i = Some (idx, col, wt) ->
  ~ (wt <> 0 /\ col = color s) -> is_parked s i = false.
Proof.
  intros Hcur Hfree. destruct (is_parked s i) eqn:Hp; [|reflexivity].
  apply is_parked_true in Hp. destruct Hp as (idx' & col' & wt' & Hc & Hw & He).
  rewrite Hcur in Hc. injection Hc as <- <- <-. exfalso. auto.
Qed.

(** ** The invariant is preserved *)

Lemma cursor_ok_frame (s s' : scheduler) (i : nat) (idx col wt : Z) :
  color_blocks s' = color_blocks s -> max_iterations s' = max_iterations s ->
  length (cpu_index s') = length (cpu_index s) ->
  color s' = color s \/ wt <> 0 ->
  cursor_ok s i idx col wt -> cursor_ok s' i idx col wt.
Proof.
  intros Hb Hk Hn Hc (Ha & Hbud & Hoff).
  unfold cursor_ok, out_of_budget, fits, nblocks, ncpus in *.
  rewrite Hb, Hk, Hn.
  split; [|split].
  - intros Hz. destruct Hc as [->|Hnz]; [auto | contradiction].
  - assumption.
  - assumption.
Qed.

Lemma fits_no_overflow (s : scheduler) (idx : Z) :
  well_formed s -> fits s idx -> idx + ncpus s < SizeT.modulus.
Proof.
  intros Hwf [Hlt|Hex].
  - pose proof (wf_ncpus s Hwf). lia.
  - apply Exists_exists in Hex. destruct Hex as (b & Hin & Hlt).
    pose proof (wf_blocks s Hwf) as Hall.
    rewrite Forall_forall in Hall. specialize (Hall b Hin). simpl in Hall. lia.
Qed.

(** The offset and epoch with which a call goes on to dispatch. *)
Lemma enter_class_ok (s : scheduler) (i : nat) (idx col wt idx1 col1 : Z) :
  well_formed s -> (i < length (cpu_index s))%nat ->
  cursor_ok s i idx col wt ->
  ~ (wt <> 0 /\ col = color s) ->
  enter_class s i idx col wt = (idx1, col1) ->
  col1 = color s /\ 0 <= idx1 /\
  (col1 / nblocks s < max_iterations s -> idx1 mod ncpus s = Z.of_nat i).
Proof.
  intros Hwf Hi (Ha & Hbud & Hoff) Hfree Henter.
  assert (HN : Z.of_nat i < ncpus s) by (unfold ncpus; lia).
  split; [|split].
  - unfold enter_class in Henter.
    destruct (Z.eqb_spec wt 0); injection Henter as <- <-; auto.
  - eapply enter_class_nonneg. eassumption.
  - intros Hk. unfold enter_class in Henter.
    destruct (Z.eqb_spec wt 0) as [Hz|Hnz]; injection Henter as <- <-.
    + destruct Hoff as [[_ Hout]|(Hpos & Hmod & Hfit)]; [lia|].
      specialize (Hfit Hz).
      pose proof (fits_no_overflow s idx Hwf Hfit) as Hno.
      rewrite wrap_small by lia.
      rewrite <- Hmod.
      replace (idx + ncpus s) with (idx + 1 * ncpus s) by lia.
      apply Z_mod_plus_full.
    + apply Z.mod_small. lia.
Qed.

Lemma is_parked_put_cursor_ne (s : scheduler) (i j : nat) (idx col wt : Z) :
  i <> j -> is_parked (put_cursor i idx col wt s) j = is_parked s j.
Proof.
  intros Hne. unfold is_parked. rewrite cursor_put_cursor_ne by assumption.
  reflexivity.
Qed.

Lemma count_parked_put_cursor_active (s : scheduler) (i : nat) (idx col wt idx1 col1 : Z) :
  well_formed s ->
  cursor s i = Some (idx, col, wt) ->
  ~ (wt <> 0 /\ col = color s) ->
  count_parked (put_cursor i idx1 col1 0 s) = count_parked s.
Proof.
  intros Hwf Hcur Hfree. pose proof (cursor_lt _ _ _ Hcur) as Hi.
  unfold count_parked. simpl. rewrite length_insert.
  apply count_below_ext. intros j Hj.
  destruct (decide (i = j)) as [<-|Hne].
  - rewrite (is_parked_false s i idx col wt) by assumption.
    apply (is_parked_false _ i idx1 col1 0).
    + apply cursor_put_cursor_eq; assumption.
    + intros [Hc _]. apply Hc. reflexivity.
  - apply is_parked_put_cursor_ne. assumption.
Qed.

Lemma count_parked_put_cursor_parked (s : scheduler) (i : nat) (idx col wt idx1 : Z) :
  well_formed s ->
  cursor s i = Some (idx, col, wt) ->
  ~ (wt <> 0 /\ col = color s) ->
  count_parked (put_cursor i idx1 (color s) 1 s) = S (count_parked s).
Proof.
  intros Hwf Hcur Hfree. pose proof (cursor_lt _ _ _ Hcur) as Hi.
  unfold count_parked. simpl. rewrite length_insert.
  apply (count_below_raise _ _ _ i).
  - assumption.
  - apply (is_parked_false s i idx col wt); assumption.
  - apply is_parked_true. exists idx1, (color s), 1.
    split; [apply cursor_put_cursor_eq; assumption|]. split; [lia | reflexivity].
  - intros j Hj Hne. apply is_parked_put_cursor_ne. auto.
Qed.

Lemma invariant_step (s s' : scheduler) (i : nat) (st : status_enum)
    (ov : option Z) :
  invariant s -> step s i st ov s' -> invariant s'.
Proof.
  intros Hinv Hstep.
  pose proof (inv_wf s Hinv) as Hwf.
  pose proof (well_formed_step _ _ _ _ _ Hwf Hstep) as Hwf'.
  destruct Hstep as
    [ Hrun
    | idx col wt Hrun Hcur Hnz Hsame
    | idx col wt idx1 col1 Hrun Hcur Hfree Henter Hnb Hk
    | idx col wt idx1 col1 block v Hrun Hcur Hfree Henter Hnb Hk Hblock Hlt Hv
    | idx col wt idx1 col1 block Hrun Hcur Hfree Henter Hnb Hk Hblock Hge Hinc
    | idx col wt idx1 col1 block Hrun Hcur Hfree Henter Hnb Hk Hblock Hge Hinc ];
    try assumption.
  all: pose proof (cursor_lt _ _ _ Hcur) as Hi.
  all: pose proof (inv_cursors s Hinv _ _ _ _ Hcur) as Hok.
  all: destruct (enter_class_ok s i idx col wt idx1 col1 Hwf Hi Hok Hfree Henter)
         as (Hcol1 & Hpos & Hmod).
  - (* out of budget *)
    split; [assumption| |].
    + intros j idx' col' wt' Hcj.
      destruct (decide (i = j)) as [<-|Hne].
      * rewrite cursor_put_cursor_eq in Hcj by assumption.
        injection Hcj as <- <- <-.
        apply (cursor_ok_frame s); [reflexivity | reflexivity
          | apply length_insert | left; reflexivity |].
        split; [auto|]. split; [intros Hc; exfalso; apply Hc; reflexivity|].
        left. split; [reflexivity | assumption].
      * rewrite cursor_put_cursor_ne in Hcj by assumption.
        apply (cursor_ok_frame s); [reflexivity | reflexivity
          | apply length_insert | left; reflexivity |].
        apply (inv_cursors s Hinv). assumption.
    + rewrite (count_parked_put_cursor_active s i idx col wt) by assumption.
      apply (inv_waiting s Hinv).
  - (* a vertex is handed out *)
    split; [assumption| |].
    + intros j idx' col' wt' Hcj.
      destruct (decide (i = j)) as [<-|Hne].
      * rewrite cursor_put_cursor_eq in Hcj by assumption.
        injection Hcj as <- <- <-.
        apply (cursor_ok_frame s); [reflexivity | reflexivity
          | apply length_insert | left; reflexivity |].
        split; [auto|]. split; [intros Hc; exfalso; apply Hc; reflexivity|].
        right. split; [assumption|]. split; [auto|].
        intros _. right. apply Exists_exists. exists block.
        split; [eapply list_elem_of_lookup_2; eassumption | lia].
      * rewrite cursor_put_cursor_ne in Hcj by assumption.
        apply (cursor_ok_frame s); [reflexivity | reflexivity
          | apply length_insert | left; reflexivity |].
        apply (inv_cursors s Hinv). assumption.
    + rewrite (count_parked_put_cursor_active s i idx col wt) by assumption.
      apply (inv_waiting s Hinv).
  - (* the worker parks *)
    pose proof (count_parked_put_cursor_parked s i idx col wt idx1 Hwf Hcur Hfree)
      as Hcount.
    rewrite <- Hcol1 in Hcount.
    split; [assumption| |].
    + intros j idx' col' wt' Hcj.
      change (cursor (put_cursor i idx1 col1 1 s) j = Some (idx', col', wt'))
        in Hcj.
      destruct (decide (i = j)) as [<-|Hne].
      * rewrite cursor_put_cursor_eq in Hcj by assumption.
        injection Hcj as <- <- <-.
        apply (cursor_ok_frame s); [reflexivity | reflexivity
          | apply length_insert | left; reflexivity |].
        split; [intros Hc; discriminate Hc|]. split; [auto|].
        right. split; [assumption|]. split; [auto|].
        intros Hc. discriminate Hc.
      * rewrite cursor_put_cursor_ne in Hcj by assumption.
        apply (cursor_ok_frame s); [reflexivity | reflexivity
          | apply length_insert | left; reflexivity |].
        apply (inv_cursors s Hinv). assumption.
    + change (atomic_inc (waiting s)
              = Z.of_nat (count_parked (put_cursor i idx1 col1 1 s))).
      rewrite Hcount, (inv_waiting s Hinv).
      pose proof (count_below_le (is_parked (put_cursor i idx1 col1 1 s))
                    (length (cpu_index (put_cursor i idx1 col1 1 s)))) as Hle.
      fold (count_parked (put_cursor i idx1 col1 1 s)) in Hle.
      rewrite Hcount in Hle. simpl in Hle. rewrite length_insert in Hle.
      pose proof (wf_ncpus s Hwf) as HN. unfold ncpus in HN.
      unfold atomic_inc. rewrite wrap_small; lia.
  - (* the last worker parks and the epoch advances *)
    pose proof (count_parked_put_cursor_parked s i idx col wt idx1 Hwf Hcur Hfree)
      as Hcount.
    rewrite <- Hcol1 in Hcount.
    set (s1 := put_cursor i idx1 col1 1 s) in *.
    assert (Hlen1 : length (cpu_index s1) = length (cpu_index s))
      by (subst s1; simpl; apply length_insert).
    assert (Hfull : count_parked s1 = length (cpu_index s1)).
    { pose proof (count_below_le (is_parked s1) (length (cpu_index s1))) as Hle.
      fold (count_parked s1) in Hle. rewrite Hcount in Hle |- *.
      pose proof (wf_ncpus s Hwf) as HN. unfold ncpus in HN.
      rewrite (inv_waiting s Hinv) in Hinc. unfold atomic_inc in Hinc.
      rewrite wrap_small in Hinc by lia. unfold ncpus in Hinc. lia. }
    assert (Hall : forall j, (j < length (cpu_index s1))%nat ->
                     is_parked s1 j = true)
      by (apply count_below_full; exact Hfull).
    split; [assumption| |].
    + intros j idx' col' wt' Hcj.
      change (cursor s1 j = Some (idx', col', wt')) in Hcj.
      pose proof (cursor_lt _ _ _ Hcj) as Hj.
      pose proof (Hall j Hj) as Hp. apply is_parked_true in Hp.
      destruct Hp as (idx2 & col2 & wt2 & Hc2 & Hw2 & Hcol2).
      rewrite Hcj in Hc2. injection Hc2 as <- <- <-.
      destruct (decide (i = j)) as [<-|Hne].
      * subst s1. rewrite cursor_put_cursor_eq in Hcj by assumption.
        injection Hcj as <- <- <-.
        apply (cursor_ok_frame s); [reflexivity | reflexivity
          | apply length_insert | right; assumption |].
        split; [intros Hc; discriminate Hc|]. split; [auto|].
        right. split; [assumption|]. split; [auto|].
        intros Hc. discriminate Hc.
      * subst s1. rewrite cursor_put_cursor_ne in Hcj by assumption.
        apply (cursor_ok_frame s); [reflexivity | reflexivity
          | apply length_insert | right; assumption |].
        apply (inv_cursors s Hinv). assumption.
    + change (0 = Z.of_nat (count_below
                (is_parked (set_color (atomic_inc (color s)) (set_waiting 0 s1)))
                (length (cpu_index s1)))).
      rewrite count_below_none; [reflexivity|].
      intros j Hj. pose proof (Hall j Hj) as Hp. apply is_parked_true in Hp.
      destruct Hp as (idx2 & col2 & wt2 & Hc2 & Hw2 & Hcol2).
      apply (is_parked_false _ j idx2 col2 wt2); [exact Hc2|].
      intros [_ Hc]. simpl in Hc. change (color s1) with (color s) in Hcol2.
      rewrite Hcol2 in Hc. symmetry in Hc. apply atomic_inc_changes in Hc.
      assumption.
Qed.

Lemma invariant_start (s s' : scheduler) :
  well_formed s -> start s = Done s' -> invariant s'.
Proof.
  intros Hwf Hstart.
  destruct (start_Done s s' Hwf Hstart)
    as (Hwf' & (Hb & Hk & Hf & Hc & Hl) & Hrun & Hwait & Hcur).
  split; [assumption| |].
  - intros j idx col wt Hcj.
    pose proof (cursor_lt _ _ _ Hcj) as Hj. rewrite Hl in Hj.
    rewrite Hcur in Hcj by assumption. injection Hcj as <- <- <-.
    split; [auto|]. split; [intros Hne; exfalso; apply Hne; reflexivity|].
    right. split; [lia|]. unfold fits, ncpus. rewrite Hl.
    split; [apply Z.mod_small; lia|]. intros _. left. lia.
  - rewrite Hwait. unfold count_parked. rewrite count_below_none; [reflexivity|].
    intros j Hj. rewrite Hl in Hj.
    apply (is_parked_false _ j (Z.of_nat j) (color s) 0); [auto|].
    intros [Hne _]. apply Hne. reflexivity.
Qed.

Lemma invariant_set_update_function (s : scheduler) (f : Z) :
  invariant s -> invariant (set_update_function f s).
Proof.
  intros [Hwf Hcur Hwait]. split.
  - apply well_formed_set_update_function. assumption.
  - exact Hcur.
  - exact Hwait.
Qed.

Lemma invariant_set_completed (s : scheduler) (b : bool) :
  invariant s -> invariant (set_completed b s).
Proof.
  intros [Hwf Hcur Hwait]. split.
  - apply well_formed_set_completed. assumption.
  - exact Hcur.
  - exact Hwait.
Qed.

Lemma invariant_get_next_task (s s' : scheduler) (cpuid : Z)
    (t t' : update_task) (st : status_enum) :
  invariant s -> get_next_task cpuid t s = Done (st, t', s') -> invariant s'.
Proof.
  intros Hinv H.
  destruct (get_next_task_step s cpuid t _ (inv_wf s Hinv) H)
    as (st0 & ov & s0 & [= -> -> ->] & [(_ & _ & _ & ->)|(_ & i & _ & Hstep)]).
  - assumption.
  - eapply invariant_step; eassumption.
Qed.

(** The invariant holds in every state of a run. *)
Lemma reachable_invariant (s : scheduler) : reachable s -> invariant s.
Proof.
  induction 1 as
    [ s s' Hwf Hstart
    | s cpuid t st t' s' _ IH Hcall
    | s cpuid t _ IH
    | s t p _ IH
    | s vs f p _ IH
    | s f p _ IH
    | s _ IH
    | s _ IH ].
  - eapply invariant_start; eassumption.
  - eapply invariant_get_next_task; eassumption.
  - exact IH.
  - apply invariant_set_update_function. exact IH.
  - apply invariant_set_update_function. exact IH.
  - apply invariant_set_update_function. exact IH.
  - apply invariant_set_completed. exact IH.
  - apply invariant_set_completed. exact IH.
Qed.

(** ** The constructor builds a well-formed scheduler *)

Lemma class_of_nil (seen : list Z) : class_of seen [].
Proof.
  split; [apply NoDup_nil_2|]. split; [|simpl; lia].
  intros x Hx. apply elem_of_nil in Hx. contradiction.
Qed.

Lemma class_of_grow (seen block : list Z) (v : Z) :
  class_of seen block -> class_of (seen ++ [v]) block.
Proof.
  intros (Hnd & Hsub & Hlen). split; [assumption|]. split.
  - intros x Hx. apply elem_of_app. left. auto.
  - rewrite length_app. simpl. lia.
Qed.

Lemma class_of_push (seen block : list Z) (v : Z) :
  v ∉ seen -> class_of seen block -> class_of (seen ++ [v]) (block ++ [v]).
Proof.
  intros Hv (Hnd & Hsub & Hlen). split; [|split].
  - apply NoDup_app. split; [assumption|]. split; [|apply NoDup_singleton].
    intros x Hx Hxv. apply list_elem_of_singleton in Hxv. subst x.
    apply Hv, Hsub, Hx.
  - intros x Hx. apply elem_of_app in Hx. apply elem_of_app.
    destruct Hx as [Hx|Hx]; auto.
  - rewrite !length_app. simpl. lia.
Qed.

Lemma push_vertex_classes (g : graph) (blocks : list (list Z))
    (seen : list Z) (v : Z) :
  v ∉ seen -> Forall (class_of seen) blocks ->
  Forall (class_of (seen ++ [v])) (push_vertex g blocks v).
Proof.
  intros Hv Hall. unfold push_vertex.
  set (c := color_of g v).
  set (blocks' := if Z.of_nat (length blocks) <=? c
                  then resize (Z.to_nat (c + 1)) [] blocks else blocks).
  assert (Hall' : Forall (class_of seen) blocks').
  { subst blocks'. destruct (Z.of_nat (length blocks) <=? c); [|assumption].
    apply Forall_resize; [apply class_of_nil | assumption]. }
  apply Forall_lookup. intros j b Hj.
  destruct (decide (Z.to_nat c = j)) as [<-|Hne].
  - rewrite list_lookup_alter_eq in Hj.
    destruct (blocks' !! Z.to_nat c) as [b0|] eqn:Hb0; [|discriminate].
    simpl in Hj. injection Hj as <-.
    apply class_of_push; [assumption|].
    rewrite Forall_lookup in Hall'. eapply Hall'. eassumption.
  - rewrite list_lookup_alter_ne in Hj by assumption.
    apply class_of_grow. rewrite Forall_lookup in Hall'. eapply Hall'.
    eassumption.
Qed.

Lemma foldl_push_vertex_classes (g : graph) (vs : list Z) :
  NoDup vs -> Forall (class_of vs) (foldl (push_vertex g) [] vs).
Proof.
  induction vs as [|v vs IH] using rev_ind; intros Hnd.
  - apply Forall_nil_2.
  - apply NoDup_app in Hnd. destruct Hnd as (Hnd & Hfresh & _).
    rewrite foldl_app. simpl. apply push_vertex_classes; [|auto].
    intros Hin. apply (Hfresh v Hin). apply list_elem_of_singleton. reflexivity.
Qed.

Lemma build_color_blocks_classes (g : graph) :
  Forall (class_of (seqZ 0 (num_vertices g))) (build_color_blocks g).
Proof. apply foldl_push_vertex_classes, NoDup_seqZ. Qed.

Lemma colored_scheduler_well_formed (g : graph) (n : Z) (junk : bool) :
  0 <= n -> 2 * n <= SizeT.modulus ->
  num_vertices g + n <= SizeT.modulus ->
  well_formed (colored_scheduler g n junk).
Proof.
  intros Hn H2n Hsize. pose proof (build_color_blocks_classes g) as Hall.
  split; unfold ncpus; simpl; rewrite ?length_replicate; try reflexivity.
  - lia.
  - eapply Forall_impl; [exact Hall|]. intros b (_ & _ & Hlen). simpl.
    rewrite length_seqZ in Hlen. lia.
  - eapply Forall_impl; [exact Hall|]. intros b (Hnd & _). exact Hnd.
Qed.

(** * The dispatch protocol *)

(** ** Epoch transitions *)

(** C2. In every state of a run, a call of [get_next_task] either leaves
    the shared epoch [color] alone, in which case the wait counter is
    unchanged or was incremented to a value other than the worker count;
    or it is the call whose increment of the wait counter reaches the
    worker count, and then it advances the epoch by exactly one increment,
    resets the wait counter to zero and returns WAITING, every worker
    (the caller included) being parked on the epoch that ends. *)
Theorem epoch_advances_exactly_at_threshold (s s' : scheduler) (cpuid : Z)
    (t t' : update_task) (st : status_enum) :
  reachable s ->
  get_next_task cpuid t s = Done (st, t', s') ->
  (atomic_inc (waiting s) = ncpus s /\ st = WAITING /\
   color s' = atomic_inc (color s) /\ color s' <> color s /\ waiting s' = 0 /\
   forall j, (j < length (cpu_index s'))%nat ->
     exists idx wt, cursor s' j = Some (idx, color s, wt) /\ wt <> 0)
  \/
  (color s' = color s /\
   (waiting s' = waiting s \/
    (waiting s' = atomic_inc (waiting s) /\ waiting s' <> ncpus s /\
     st = WAITING))).
Proof.
  intros Hreach H.
  pose proof (reachable_invariant s Hreach) as Hinv.
  pose proof (inv_wf s Hinv) as Hwf.
  destruct (get_next_task_step s cpuid t _ Hwf H)
    as (st0 & ov & s0 & [= -> -> ->] & [(_ & _ & _ & ->)|(_ & i & _ & Hstep)]).
  { right. auto. }
  destruct Hstep as
    [ Hrun
    | idx col wt Hrun Hcur Hnz Hsame
    | idx col wt idx1 col1 Hrun Hcur Hfree Henter Hnb Hk
    | idx col wt idx1 col1 block v Hrun Hcur Hfree Henter Hnb Hk Hblock Hlt Hv
    | idx col wt idx1 col1 block Hrun Hcur Hfree Henter Hnb Hk Hblock Hge Hinc
    | idx col wt idx1 col1 block Hrun Hcur Hfree Henter Hnb Hk Hblock Hge Hinc ];
    try (right; split; [reflexivity | left; reflexivity]).
  - right. split; [reflexivity|]. right. simpl. auto.
  - left.
    pose proof (cursor_lt _ _ _ Hcur) as Hi.
    pose proof (inv_cursors s Hinv _ _ _ _ Hcur) as Hok.
    destruct (enter_class_ok s i idx col wt idx1 col1 Hwf Hi Hok Hfree Henter)
      as (Hcol1 & _ & _).
    pose proof (count_parked_put_cursor_parked s i idx col wt idx1 Hwf Hcur Hfree)
      as Hcount.
    rewrite <- Hcol1 in Hcount.
    set (s1 := put_cursor i idx1 col1 1 s) in *.
    assert (Hlen1 : length (cpu_index s1) = length (cpu_index s))
      by (subst s1; simpl; apply length_insert).
    assert (Hfull : count_parked s1 = length (cpu_index s1)).
    { pose proof (count_below_le (is_parked s1) (length (cpu_index s1))) as Hle.
      fold (count_parked s1) in Hle. rewrite Hcount in Hle |- *.
      pose proof (wf_ncpus s Hwf) as HN. unfold ncpus in HN.
      pose proof Hinc as Hinc'.
      rewrite (inv_waiting s Hinv) in Hinc'. unfold atomic_inc in Hinc'.
      rewrite wrap_small in Hinc' by lia. unfold ncpus in Hinc'. lia. }
    split; [assumption|]. split; [reflexivity|]. split; [reflexivity|].
    split; [apply atomic_inc_changes|]. split; [reflexivity|].
    intros j Hj.
    change (j < length (cpu_index s1))%nat in Hj.
    pose proof (count_below_full _ _ Hfull j Hj) as Hp.
    apply is_parked_true in Hp.
    destruct Hp as (idx2 & col2 & wt2 & Hc2 & Hw2 & Hcol2).
    change (color s1) with (color s) in Hcol2. subst col2.
    exists idx2, wt2. split; [exact Hc2 | exact Hw2].
Qed.

(** ** Round-robin offsets *)

Lemma reachable_cursor_congruent (s : scheduler) (i : nat) (idx col wt : Z) :
  reachable s ->
  cursor s i = Some (idx, col, wt) ->
  col / nblocks s < max_iterations s ->
  0 <= idx /\ idx mod ncpus s = Z.of_nat i.
Proof.
  intros Hreach Hcur Hk.
  pose proof (reachable_invariant s Hreach) as Hinv.
  destruct (inv_cursors s Hinv _ _ _ _ Hcur) as (_ & _ & [[_ Hout]|Hoff]).
  - lia.
  - destruct Hoff as (Hpos & Hmod & _). auto.
Qed.

(** What a call that hands out a vertex has done: the worker's cursor is
    in budget, on the shared epoch, and the vertex is the entry of the
    current class at the cursor's offset. *)
Lemma newtask_offset (s s' : scheduler) (i : nat) (t t' : update_task) :
  reachable s ->
  get_next_task (Z.of_nat i) t s = Done (NEWTASK, t', s') ->
  exists o block,
    cursor s' i = Some (o, color s, 0) /\
    color s / nblocks s < max_iterations s /\
    color_blocks s !! Z.to_nat (color s mod nblocks s) = Some block /\
    0 <= o < Z.of_nat (length block) /\
    block !! Z.to_nat o = Some (vertex t') /\
    function t' = update_function s.
Proof.
  intros Hreach H.
  pose proof (reachable_invariant s Hreach) as Hinv.
  pose proof (inv_wf s Hinv) as Hwf.
  destruct (get_next_task_step s _ t _ Hwf H)
    as (st0 & ov & s0 & [= <- -> <-] & [(_ & [=] & _)|(_ & i' & Hi' & Hstep)]).
  apply Nat2Z.inj in Hi'. subst i'.
  inversion Hstep as
    [ | | | idx col wt idx1 col1 block v Hrun Hcur Hfree Henter Hnb Hk Hblock Hlt Hv
    | | ]; subst.
  pose proof (cursor_lt _ _ _ Hcur) as Hi.
  pose proof (inv_cursors s Hinv _ _ _ _ Hcur) as Hok.
  destruct (enter_class_ok s i idx col wt idx1 col1 Hwf Hi Hok Hfree Henter)
    as (Hcol1 & _ & _).
  subst col1. exists idx1, block.
  split; [apply cursor_put_cursor_eq; assumption|].
  simpl. auto.
Qed.

(** C5. In every state of a run, the offset held by the cursor of worker
    [i] is congruent to [i] modulo the worker count as long as the cursor
    is within the iteration budget; and when two distinct workers are each
    handed a vertex of the same color class, they are handed it at
    distinct offsets of the class, and the two vertices differ. *)
Theorem worker_offsets_partition_class :
  (forall (s : scheduler) (i : nat) (idx col wt : Z),
     reachable s ->
     cursor s i = Some (idx, col, wt) ->
     col / nblocks s < max_iterations s ->
     idx mod ncpus s = Z.of_nat i) /\
  (forall (s1 s1' s2 s2' : scheduler) (i1 i2 : nat)
          (t1 t1' t2 t2' : update_task),
     reachable s1 -> reachable s2 ->
     color_blocks s2 = color_blocks s1 ->
     ncpus s2 = ncpus s1 ->
     color s2 mod nblocks s2 = color s1 mod nblocks s1 ->
     get_next_task (Z.of_nat i1) t1 s1 = Done (NEWTASK, t1', s1') ->
     get_next_task (Z.of_nat i2) t2 s2 = Done (NEWTASK, t2', s2') ->
     i1 <> i2 ->
     exists o1 o2,
       cpu_index s1' !! i1 = Some o1 /\ cpu_index s2' !! i2 = Some o2 /\
       o1 mod ncpus s1 = Z.of_nat i1 /\ o2 mod ncpus s1 = Z.of_nat i2 /\
       o1 <> o2 /\ vertex t1' <> vertex t2').
Proof.
  split.
  - intros s i idx col wt Hreach Hcur Hk.
    apply (reachable_cursor_congruent s i idx col wt); assumption.
  - intros s1 s1' s2 s2' i1 i2 t1 t1' t2 t2' Hr1 Hr2 Hblocks HN Hclass H1 H2 Hne.
    destruct (newtask_offset s1 s1' i1 t1 t1' Hr1 H1)
      as (o1 & b1 & Hc1 & Hk1 & Hb1 & Ho1 & Hv1 & _).
    destruct (newtask_offset s2 s2' i2 t2 t2' Hr2 H2)
      as (o2 & b2 & Hc2 & Hk2 & Hb2 & Ho2 & Hv2 & _).
    pose proof (reach_next _ _ _ _ _ _ Hr1 H1) as Hr1'.
    pose proof (reach_next _ _ _ _ _ _ Hr2 H2) as Hr2'.
    pose proof (inv_wf _ (reachable_invariant _ Hr1)) as Hwf1.
    assert (Hsame1 : nblocks s1' = nblocks s1 /\ max_iterations s1' = max_iterations s1
                     /\ ncpus s1' = ncpus s1).
    { destruct (get_next_task_step s1 _ t1 _ Hwf1 H1)
        as (st0 & ov & s0 & [= <- -> <-] & [(_ & [=] & _)|(_ & i' & _ & Hstep)]).
      inversion Hstep; subst. unfold ncpus. simpl. rewrite length_insert. auto. }
    pose proof (inv_wf _ (reachable_invariant _ Hr2)) as Hwf2.
    assert (Hsame2 : nblocks s2' = nblocks s2 /\ max_iterations s2' = max_iterations s2
                     /\ ncpus s2' = ncpus s2).
    { destruct (get_next_task_step s2 _ t2 _ Hwf2 H2)
        as (st0 & ov & s0 & [= <- -> <-] & [(_ & [=] & _)|(_ & i' & _ & Hstep)]).
      inversion Hstep; subst. unfold ncpus. simpl. rewrite length_insert. auto. }
    destruct Hsame1 as (Hnb1 & Hmax1 & HN1).
    destruct Hsame2 as (Hnb2 & Hmax2 & HN2).
    destruct (reachable_cursor_congruent s1' i1 o1 (color s1) 0 Hr1' Hc1)
      as [_ Hm1]; [rewrite Hnb1, Hmax1; assumption|].
    destruct (reachable_cursor_congruent s2' i2 o2 (color s2) 0 Hr2' Hc2)
      as [_ Hm2]; [rewrite Hnb2, Hmax2; assumption|].
    rewrite HN1 in Hm1. rewrite HN2, HN in Hm2.
    assert (Hoff : o1 <> o2) by (intros ->; rewrite Hm1 in Hm2; lia).
    apply cursor_Some in Hc1. destruct Hc1 as (Hi1 & _).
    apply cursor_Some in Hc2. destruct Hc2 as (Hi2 & _).
    exists o1, o2. repeat (split; [assumption|]).
    rewrite Hblocks, Hclass, Hb1 in Hb2.
    injection Hb2 as <-.
    intros Heq. rewrite <- Heq in Hv2.
    pose proof (wf_nodup s1 Hwf1) as Hnd. rewrite Forall_lookup in Hnd.
    specialize (Hnd _ _ Hb1).
    pose proof (NoDup_lookup _ _ _ _ Hnd Hv1 Hv2). lia.
Qed.

(** ** The iteration budget *)

(** An epoch that is out of budget in the cursor of a worker is the
    shared epoch: a waiting worker's epoch is within the budget. *)
Lemma out_of_budget_epoch_shared (s : scheduler) (i : nat) (e : Z) :
  invariant s -> (i < length (cpu_index s))%nat ->
  cpu_color s !! i = Some e \/ e = color s ->
  max_iterations s <= e / nblocks s ->
  e = color s.
Proof.
  intros Hinv Hi [He|He] Hout; [|exact He].
  destruct (cursor_exists s i (inv_wf s Hinv) Hi) as (idx & col & wt & Hcur).
  pose proof Hcur as Hcur'. apply cursor_Some in Hcur'.
  destruct Hcur' as (_ & Hcol & _). rewrite He in Hcol. injection Hcol as <-.
  destruct (inv_cursors s Hinv _ _ _ _ Hcur) as (Ha & Hb & _).
  destruct (Z.eq_dec wt 0) as [Hz|Hnz]; [auto|].
  specialize (Hb Hnz). lia.
Qed.

Lemma step_frame (s s' : scheduler) (i : nat) (st : status_enum)
    (ov : option Z) :
  step s i st ov s' ->
  color_blocks s' = color_blocks s /\ max_iterations s' = max_iterations s /\
  update_function s' = update_function s /\ completed s' = completed s /\
  length (cpu_index s') = length (cpu_index s).
Proof.
  intros Hstep. destruct Hstep; simpl; rewrite ?length_insert; auto.
Qed.

Lemma step_out_of_budget (s s' : scheduler) (i : nat) (st : status_enum)
    (ov : option Z) :
  invariant s -> step s i st ov s' ->
  max_iterations s <= color s / nblocks s ->
  st = COMPLETE /\ ov = None /\ color s' = color s.
Proof.
  intros Hinv Hstep Hout.
  pose proof (inv_wf s Hinv) as Hwf.
  destruct Hstep as
    [ Hrun
    | idx col wt Hrun Hcur Hnz Hsame
    | idx col wt idx1 col1 Hrun Hcur Hfree Henter Hnb Hk
    | idx col wt idx1 col1 block v Hrun Hcur Hfree Henter Hnb Hk Hblock Hlt Hv
    | idx col wt idx1 col1 block Hrun Hcur Hfree Henter Hnb Hk Hblock Hge Hinc
    | idx col wt idx1 col1 block Hrun Hcur Hfree Henter Hnb Hk Hblock Hge Hinc ];
    try (split; [reflexivity|]; split; reflexivity).
  - exfalso. destruct (inv_cursors s Hinv _ _ _ _ Hcur) as (_ & Hb & _).
    specialize (Hb Hnz). rewrite Hsame in Hb. lia.
  - exfalso. pose proof (cursor_lt _ _ _ Hcur) as Hi.
    destruct (enter_class_ok s i idx col wt idx1 col1 Hwf Hi
                (inv_cursors s Hinv _ _ _ _ Hcur) Hfree Henter) as (-> & _).
    lia.
  - exfalso. pose proof (cursor_lt _ _ _ Hcur) as Hi.
    destruct (enter_class_ok s i idx col wt idx1 col1 Hwf Hi
                (inv_cursors s Hinv _ _ _ _ Hcur) Hfree Henter) as (-> & _).
    lia.
  - exfalso. pose proof (cursor_lt _ _ _ Hcur) as Hi.
    destruct (enter_class_ok s i idx col wt idx1 col1 Hwf Hi
                (inv_cursors s Hinv _ _ _ _ Hcur) Hfree Henter) as (-> & _).
    lia.
Qed.

(** C7. In every state of a run with at least one color class, let [e] be
    the epoch a worker has observed (the one stored in its cursor) or the
    shared epoch it is about to observe.  If
    [max_iterations <= e / nblocks], the worker's call of [get_next_task]
    returns COMPLETE and leaves [ret_task] alone, so it does not return
    NEWTASK; [e] is then the shared epoch, and the call advances neither
    the epoch nor the budget, so every later call of every worker is in
    the same position. *)
Theorem budget_exhausted_returns_complete (s : scheduler) (i : nat)
    (t : update_task) (e : Z) :
  reachable s ->
  (i < length (cpu_index s))%nat ->
  1 <= nblocks s ->
  cpu_color s !! i = Some e \/ e = color s ->
  max_iterations s <= e / nblocks s ->
  exists s',
    get_next_task (Z.of_nat i) t s = Done (COMPLETE, t, s') /\
    e = color s /\ color s' = color s /\
    nblocks s' = nblocks s /\ max_iterations s' = max_iterations s.
Proof.
  intros Hreach Hi Hnb He Hout.
  pose proof (reachable_invariant s Hreach) as Hinv.
  pose proof (inv_wf s Hinv) as Hwf.
  pose proof (out_of_budget_epoch_shared s i e Hinv Hi He Hout) as ->.
  destruct (step_total s i Hwf Hi) as (st & ov & s' & Hstep); [lia|].
  destruct (step_out_of_budget s s' i st ov Hinv Hstep Hout) as (-> & -> & Hc).
  pose proof (step_get_next_task s s' i t _ _ Hwf Hstep) as Hcall.
  destruct (step_frame _ _ _ _ _ Hstep) as (Hb & Hk & _ & _ & _).
  exists s'. split; [exact Hcall|]. split; [reflexivity|].
  split; [exact Hc|]. split; [unfold nblocks; rewrite Hb; reflexivity|].
  exact Hk.
Qed.

(** Once the shared epoch is out of budget, every call of every worker
    returns COMPLETE, whatever the interleaving. *)
Lemma run_out_of_budget (schedule : list nat) (s : scheduler) :
  reachable s ->
  1 <= nblocks s ->
  max_iterations s <= color s / nblocks s ->
  Forall (fun i => (i < length (cpu_index s))%nat) schedule ->
  exists s',
    run (Z.of_nat <$> schedule) s
    = Done ((fun i => (Z.of_nat i, COMPLETE, None)) <$> schedule, s').
Proof.
  revert s. induction schedule as [|i rest IH]; intros s Hreach Hnb Hout Hall.
  - exists s. reflexivity.
  - apply Forall_cons in Hall. destruct Hall as [Hi Hall].
    pose proof (reachable_invariant s Hreach) as Hinv.
    pose proof (inv_wf s Hinv) as Hwf.
    destruct (step_total s i Hwf Hi) as (st & ov & s1 & Hstep); [lia|].
    destruct (step_out_of_budget s s1 i st ov Hinv Hstep Hout)
      as (-> & -> & Hc).
    pose proof (step_get_next_task s s1 i no_task _ _ Hwf Hstep)
      as Hcall.
    destruct (step_frame _ _ _ _ _ Hstep) as (Hb & Hk & _ & _ & Hl).
    destruct (IH s1) as (s' & Hrun).
    + exact (reach_next _ _ _ _ _ _ Hreach Hcall).
    + unfold nblocks in *. rewrite Hb. assumption.
    + unfold nblocks in *. rewrite Hb, Hk, Hc. assumption.
    + rewrite Hl. assumption.
    + exists s'. rewrite !fmap_cons.
      change (run (Z.of_nat i :: (Z.of_nat <$> rest)) s)
        with ('(st, task, s1) ← get_next_task (Z.of_nat i) no_task s;
              '(tr, s2) ← run (Z.of_nat <$> rest) s1;
              Done (observe (Z.of_nat i) st task :: tr, s2)).
      rewrite Hcall. unfold mbind at 1, outcome_bind at 1. cbv beta iota.
      rewrite Hrun. reflexivity.
Qed.

(** ** The output parameter *)

Lemma dispatch_ret_task (s s' : scheduler) (cpuid : Z) (t t' : update_task)
    (st : status_enum) :
  dispatch cpuid t s = Done (st, t', s') -> st <> NEWTASK -> t' = t.
Proof.
  intros H Hst. unfold dispatch in H.
  invert_bind H. invert_bind H. invert_bind H.
  destruct (max_iterations s <=? a1); [injection H as <- <- <-; reflexivity|].
  invert_bind H. invert_bind H.
  destruct (a2 <? Z.of_nat (length a3)).
  - invert_bind H. injection H as <- <- <-. contradiction.
  - invert_bind H.
    destruct (_ =? _); injection H as <- <- <-; reflexivity.
Qed.

(** C10. Whenever [get_next_task] returns WAITING or COMPLETE, the
    reference parameter [ret_task] holds on return what it held at the
    call: it is assigned on the NEWTASK branch only. *)
Theorem ret_task_unmodified_unless_newtask (s s' : scheduler) (cpuid : Z)
    (t t' : update_task) (st : status_enum) :
  get_next_task cpuid t s = Done (st, t', s') ->
  st <> NEWTASK ->
  t' = t.
Proof.
  intros H Hst. unfold get_next_task in H.
  destruct (completed s); [injection H as <- <- <-; reflexivity|].
  invert_bind H. destruct (negb (a =? 0)).
  - invert_bind H.
    destruct (a0 =? color s); [injection H as <- <- <-; reflexivity|].
    invert_bind H. invert_bind H. invert_bind H.
    eapply dispatch_ret_task; eassumption.
  - invert_bind H. invert_bind H.
    eapply dispatch_ret_task; eassumption.
Qed.

(** ** Life cycle and registration *)

Lemma aborted_completed (s : scheduler) : aborted s -> completed s = true.
Proof.
  induction 1 as
    [ s
    | s cpuid t st t' s' _ IH Hcall
    | s cpuid t _ IH
    | s t p _ IH
    | s vs f p _ IH
    | s f p _ IH
    | s opt v s' _ IH Hopt
    | s _ IH
    | s _ IH ]; try reflexivity; try exact IH.
  - unfold get_next_task in Hcall. rewrite IH in Hcall.
    injection Hcall as _ _ <-. exact IH.
  - unfold set_option in Hopt.
    destruct (is_max_iterations opt); [|discriminate].
    injection Hopt as <-. destruct (is_update_function opt); exact IH.
Qed.

(** C6. In every state that follows a call of [abort] within the run
    (whatever calls of [get_next_task], [completed_task], [add_task],
    [add_tasks], [add_task_to_all], [set_option], [stop] and [abort] came in
    between), a call of [get_next_task] returns COMPLETE for every worker
    id, leaves the scheduler as it is and does not touch [ret_task]. *)
Theorem abort_makes_every_call_complete (s : scheduler) (cpuid : Z)
    (t : update_task) :
  aborted s ->
  get_next_task cpuid t s = Done (COMPLETE, t, s).
Proof.
  intros Habort. unfold get_next_task.
  rewrite (aborted_completed s Habort). reflexivity.
Qed.

(** C9. [stop] and [abort] are the same state transformer: from one state
    they produce one state, in which [completed] is set and every other
    member is as before. *)
Theorem stop_equals_abort (s : scheduler) :
  stop s = abort s /\
  stop s = Scheduler (color_blocks s) (cpu_index s) (cpu_color s)
             (cpu_waiting s) (max_iterations s) (update_function s) true
             (color s) (waiting s).
Proof. split; reflexivity. Qed.

(** C8. Each of [add_task], [add_tasks] and [add_task_to_all] stores the
    given function in [update_function] and changes no other member; the
    vertices and the priority passed do not matter, neither for the state
    nor for what any later schedule of calls hands out; and a later
    registration replaces the function of an earlier one. *)
Theorem registration_overwrites_update_function (s : scheduler)
    (task : update_task) (vs vs' : list Z) (f g : Z) (p p' : double)
    (schedule : list Z) :
  add_task task p s
  = Scheduler (color_blocks s) (cpu_index s) (cpu_color s) (cpu_waiting s)
      (max_iterations s) (function task) (completed s) (color s) (waiting s)
  /\ add_tasks vs f p s
  = Scheduler (color_blocks s) (cpu_index s) (cpu_color s) (cpu_waiting s)
      (max_iterations s) f (completed s) (color s) (waiting s)
  /\ add_task_to_all f p s
  = Scheduler (color_blocks s) (cpu_index s) (cpu_color s) (cpu_waiting s)
      (max_iterations s) f (completed s) (color s) (waiting s)
  /\ add_tasks vs f p s = add_tasks vs' f p' s
  /\ add_tasks vs f p s = add_task_to_all f p' s
  /\ run schedule (add_tasks vs f p s) = run schedule (add_tasks vs' f p' s)
  /\ add_task task p' (add_tasks vs f p s) = add_task task p' s
  /\ add_tasks vs' g p' (add_task task p s) = add_tasks vs' g p' s
  /\ add_tasks vs' g p' (add_tasks vs f p s) = add_tasks vs' g p' s
  /\ add_task_to_all g p' (add_tasks vs f p s) = add_task_to_all g p' s
  /\ add_tasks vs' g p' (add_task_to_all f p s) = add_tasks vs' g p' s
  /\ update_function (add_tasks vs' g p' (add_tasks vs f p s)) = g.
Proof. repeat split; reflexivity. Qed.

(** ** Options *)

Lemma set_option_max_iterations (s : scheduler) (value : Z) :
  set_option MAX_ITERATIONS value s = Done (set_max_iterations value s).
Proof. reflexivity. Qed.

Lemma set_option_other (s : scheduler) (tag : nat) (value : Z) :
  set_option (OTHER_OPTION tag) value s = Crash AssertionFailure.
Proof. reflexivity. Qed.

(** C4 fails on the code.  Setting the option UPDATE_FUNCTION runs into
    [assert(false)]: the first [if] of [set_option] stores the function
    and, for want of an [else], control falls into the second [if], whose
    test fails for UPDATE_FUNCTION. *)
Theorem set_option_update_function_asserts (s : scheduler) (value : Z) :
  set_option UPDATE_FUNCTION value s = Crash AssertionFailure.
Proof. reflexivity. Qed.

(** ** An empty partition *)

Lemma get_next_task_no_classes (s : scheduler) (i : nat) (t : update_task)
    (idx col wt : Z) :
  well_formed s ->
  completed s = false ->
  nblocks s = 0 ->
  cursor s i = Some (idx, col, wt) ->
  ~ (wt <> 0 /\ col = color s) ->
  get_next_task (Z.of_nat i) t s = Crash DivisionByZero.
Proof.
  intros Hwf Hrun Hnb Hcur Hfree.
  destruct (enter_class s i idx col wt) as [idx1 col1] eqn:Henter.
  rewrite (get_next_task_enter s i t idx col wt idx1 col1) by assumption.
  pose proof (cursor_lt _ _ _ Hcur) as Hi.
  pose proof (cursor_put_cursor_eq s i idx1 col1 0 Hwf Hi) as Hcur1.
  apply cursor_Some in Hcur1. destruct Hcur1 as (_ & Hcol1 & _).
  unfold dispatch. rewrite (vec_at_of_nat _ _ _ Hcol1).
  change (nblocks (put_cursor i idx1 col1 0 s)) with (nblocks s).
  rewrite Hnb. reflexivity.
Qed.

(** With no vertices there is no color class, and the first call of every
    worker after [start] takes a modulus by zero. *)
Lemma no_vertices_first_call_faults (g : graph) (n : Z) (junk : bool)
    (f : Z) (p : double) (i : nat) (t : update_task) :
  num_vertices g <= 0 -> Z.of_nat i < n -> 2 * n <= SizeT.modulus ->
  f <> NULL ->
  exists s,
    start (add_task_to_all f p (colored_scheduler g n junk)) = Done s /\
    get_next_task (Z.of_nat i) t s = Crash DivisionByZero.
Proof.
  intros Hg Hi Hn Hf.
  assert (Hbuild : build_color_blocks g = []).
  { unfold build_color_blocks, seqZ.
    replace (Z.to_nat (num_vertices g)) with O by lia. reflexivity. }
  set (s0 := add_task_to_all f p (colored_scheduler g n junk)).
  assert (Hblocks : color_blocks s0 = []) by exact Hbuild.
  assert (Hwf : well_formed s0).
  { apply well_formed_set_update_function.
    split; unfold ncpus; simpl; rewrite ?length_replicate, ?Hbuild;
      try reflexivity; try apply Forall_nil_2.
    lia. }
  destruct (start_succeeds s0 Hwf Hf) as (s & Hstart).
  exists s. split; [exact Hstart|].
  destruct (start_Done s0 s Hwf Hstart)
    as (Hwf' & (Hb & _) & Hrun & _ & Hcur).
  apply (get_next_task_no_classes s i t (Z.of_nat i) (color s0) 0);
    try assumption.
  - unfold nblocks. rewrite Hb, Hblocks. reflexivity.
  - apply Hcur. subst s0. simpl. rewrite length_replicate. lia.
  - intros [Hne _]. apply Hne. reflexivity.
Qed.

(** C3 fails on the code.  A scheduler for a graph without vertices has no
    color class; after [start], the first call of [get_next_task] computes
    [cpu_color[cpuid] % color_blocks.size()] with a zero divisor instead of
    returning COMPLETE. *)
Theorem empty_partition_divides_by_zero :
  color_blocks (colored_scheduler empty_graph 2 false) = [] /\
  (s ← start (add_task_to_all 77 unit_priority (colored_scheduler empty_graph 2 false));
   get_next_task 0 no_task s) = Crash DivisionByZero.
Proof. split; reflexivity. Qed.

(** ** The first epoch *)

(** After [start] the cursor of worker [i] holds offset [i], yet its first
    call adds the worker count before it looks at the class: whatever the
    call returns, the cursor has moved on to [i + ncpus] and the vertex at
    offset [i] of the first class was not handed out. *)
Lemma first_call_skips_seed (s s1 s2 : scheduler) (i : nat)
    (t t' : update_task) (st : status_enum) :
  well_formed s -> start s = Done s1 ->
  (i < length (cpu_index s))%nat ->
  get_next_task (Z.of_nat i) t s1 = Done (st, t', s2) ->
  cursor s1 i = Some (Z.of_nat i, color s, 0) /\
  cpu_index s2 !! i = Some (Z.of_nat i + ncpus s).
Proof.
  intros Hwf Hstart Hi Hcall.
  destruct (start_Done s s1 Hwf Hstart)
    as (Hwf1 & (_ & _ & _ & Hc & Hl) & Hrun & _ & Hcur).
  specialize (Hcur i Hi). split; [exact Hcur|].
  assert (Hi1 : (i < length (cpu_index s1))%nat) by (rewrite Hl; exact Hi).
  assert (Hwrap : SizeT.wrap (Z.of_nat i + ncpus s1) = Z.of_nat i + ncpus s).
  { pose proof (wf_ncpus s Hwf) as HN. unfold ncpus in *. rewrite Hl.
    apply wrap_small. lia. }
  destruct (get_next_task_step s1 _ t _ Hwf1 Hcall)
    as (st0 & ov & s0 & [= -> -> ->] & [(Hcomp & _)|(_ & i' & Hi' & Hstep)]).
  { rewrite Hrun in Hcomp. discriminate. }
  apply Nat2Z.inj in Hi'. subst i'.
  assert (Hseed : forall idx col wt idx1 col1,
    cursor s1 i = Some (idx, col, wt) ->
    enter_class s1 i idx col wt = (idx1, col1) ->
    idx1 = Z.of_nat i + ncpus s).
  { intros idx col wt idx1 col1 Hc1 He. rewrite Hcur in Hc1.
    injection Hc1 as <- <- <-. unfold enter_class in He. simpl in He.
    injection He as <- <-. exact Hwrap. }
  destruct Hstep as
    [ Hrun'
    | idx col wt Hrun' Hcur' Hnz Hsame
    | idx col wt idx1 col1 Hrun' Hcur' Hfree Henter Hnb Hk
    | idx col wt idx1 col1 block v Hrun' Hcur' Hfree Henter Hnb Hk Hblock Hlt Hv
    | idx col wt idx1 col1 block Hrun' Hcur' Hfree Henter Hnb Hk Hblock Hge Hinc
    | idx col wt idx1 col1 block Hrun' Hcur' Hfree Henter Hnb Hk Hblock Hge Hinc ].
  - rewrite Hrun in Hrun'. discriminate.
  - rewrite Hcur in Hcur'. injection Hcur' as <- <- <-. contradiction.
  - rewrite (Hseed _ _ _ _ _ Hcur' Henter). simpl.
    apply list_lookup_insert_eq. exact Hi1.
  - rewrite (Hseed _ _ _ _ _ Hcur' Henter). simpl.
    apply list_lookup_insert_eq. exact Hi1.
  - rewrite (Hseed _ _ _ _ _ Hcur' Henter). simpl.
    apply list_lookup_insert_eq. exact Hi1.
  - rewrite (Hseed _ _ _ _ _ Hcur' Henter). simpl.
    apply list_lookup_insert_eq. exact Hi1.
Qed.

(** C1 fails on the code in the first epoch.  In the scenario of the
    specification (vertices 0 and 1 in class A, 2 and 3 in class B, two
    workers, one iteration) the first epoch hands out no vertex at all:
    both workers overrun class A at their first call, the epoch advances,
    class B is handed out in full, and the run completes without vertices
    0 and 1 ever being dispatched. *)
Theorem first_epoch_skips_first_class :
  build_color_blocks two_color_graph = [[0; 1]; [2; 3]] /\
  (s ← scenario two_color_graph 2 77 1;
   '(trace, _) ← run [0; 1; 0; 1; 0; 1; 0; 1] s;
   Done trace)
  = Done [ (0, WAITING, None); (1, WAITING, None);
           (0, NEWTASK, Some 2); (1, NEWTASK, Some 3);
           (0, WAITING, None); (1, WAITING, None);
           (0, COMPLETE, None); (1, COMPLETE, None) ].
Proof. split; reflexivity. Qed.

(** The pure round-robin scenario: the first pass over the single class
    hands out offsets 3 to 6 only, the second pass hands out all seven. *)
Lemma single_class_first_pass_skips_three :
  build_color_blocks one_color_graph = [[0; 1; 2; 3; 4; 5; 6]] /\
  (s ← scenario one_color_graph 3 77 2;
   '(trace, _) ← run [0; 1; 2; 0; 1; 2; 0; 1; 2; 0; 1; 2; 0; 1; 2; 0; 1; 2;
                       0; 1; 2] s;
   Done trace)
  = Done [ (0, NEWTASK, Some 3); (1, NEWTASK, Some 4); (2, NEWTASK, Some 5);
           (0, NEWTASK, Some 6); (1, WAITING, None); (2, WAITING, None);
           (0, WAITING, None); (1, NEWTASK, Some 1); (2, NEWTASK, Some 2);
           (0, NEWTASK, Some 0); (1, NEWTASK, Some 4); (2, NEWTASK, Some 5);
           (0, NEWTASK, Some 3); (1, WAITING, None); (2, WAITING, None);
           (0, NEWTASK, Some 6); (1, WAITING, None); (2, WAITING, None);
           (0, WAITING, None); (1, COMPLETE, None); (2, COMPLETE, None) ].
Proof. split; reflexivity. Qed.

(** * The scenario, state by state *)

Lemma demo_ready_well_formed : well_formed demo_ready.
Proof.
  apply well_formed_set_max_iterations, well_formed_set_update_function.
  apply colored_scheduler_well_formed; simpl; unfold SizeT.modulus; lia.
Qed.

Lemma demo_started_reachable : reachable demo_started.
Proof.
  apply (reach_start demo_ready); [exact demo_ready_well_formed | reflexivity].
Qed.

Lemma demo_parked_reachable : reachable demo_parked.
Proof.
  apply (reach_next demo_started 0 no_task WAITING no_task);
    [exact demo_started_reachable | reflexivity].
Qed.

Lemma demo_advanced_reachable : reachable demo_advanced.
Proof.
  apply (reach_next demo_parked 1 no_task WAITING no_task);
    [exact demo_parked_reachable | reflexivity].
Qed.

Lemma demo_class_b_reachable : reachable demo_class_b.
Proof.
  apply (reach_next demo_advanced 0 no_task NEWTASK (UpdateTask 2 77));
    [exact demo_advanced_reachable | reflexivity].
Qed.

Lemma demo_class_b_done_reachable : reachable demo_class_b_done.
Proof.
  apply (reach_next demo_class_b 1 no_task NEWTASK (UpdateTask 3 77));
    [exact demo_class_b_reachable | reflexivity].
Qed.

Lemma demo_parked_b_reachable : reachable demo_parked_b.
Proof.
  apply (reach_next demo_class_b_done 0 no_task WAITING no_task);
    [exact demo_class_b_done_reachable | reflexivity].
Qed.

Lemma demo_exhausted_reachable : reachable demo_exhausted.
Proof.
  apply (reach_next demo_parked_b 1 no_task WAITING no_task);
    [exact demo_parked_b_reachable | reflexivity].
Qed.

(** * The theorems on the scenario *)

(** The call of worker 1 in [demo_parked] is the one that completes the
    count: the epoch advances from 0 to 1. *)
Lemma epoch_advances_exactly_at_threshold_witness :
  reachable demo_parked /\
  get_next_task 1 no_task demo_parked = Done (WAITING, no_task, demo_advanced) /\
  ((atomic_inc (waiting demo_parked) = ncpus demo_parked /\ WAITING = WAITING /\
    color demo_advanced = atomic_inc (color demo_parked) /\
    color demo_advanced <> color demo_parked /\ waiting demo_advanced = 0 /\
    forall j, (j < length (cpu_index demo_advanced))%nat ->
      exists idx wt,
        cursor demo_advanced j = Some (idx, color demo_parked, wt) /\ wt <> 0)
   \/
   (color demo_advanced = color demo_parked /\
    (waiting demo_advanced = waiting demo_parked \/
     (waiting demo_advanced = atomic_inc (waiting demo_parked) /\
      waiting demo_advanced <> ncpus demo_parked /\ WAITING = WAITING)))).
Proof.
  split; [exact demo_parked_reachable|]. split; [reflexivity|].
  exact (epoch_advances_exactly_at_threshold demo_parked demo_advanced 1
           no_task no_task WAITING demo_parked_reachable eq_refl).
Defined.

(** Workers 0 and 1 are handed vertices 2 and 3 of class B, at offsets 0
    and 1. *)
Lemma worker_offsets_partition_class_witness :
  reachable demo_advanced /\ reachable demo_class_b /\
  get_next_task 0 no_task demo_advanced
  = Done (NEWTASK, UpdateTask 2 77, demo_class_b) /\
  get_next_task 1 no_task demo_class_b
  = Done (NEWTASK, UpdateTask 3 77, demo_class_b_done) /\
  (exists o1 o2,
     cpu_index demo_class_b !! O = Some o1 /\
     cpu_index demo_class_b_done !! 1%nat = Some o2 /\
     o1 mod ncpus demo_advanced = 0 /\ o2 mod ncpus demo_advanced = 1 /\
     o1 <> o2 /\ vertex (UpdateTask 2 77) <> vertex (UpdateTask 3 77)).
Proof.
  split; [exact demo_advanced_reachable|].
  split; [exact demo_class_b_reachable|].
  split; [reflexivity|]. split; [reflexivity|].
  apply (proj2 worker_offsets_partition_class
           demo_advanced demo_class_b demo_class_b demo_class_b_done
           O 1%nat no_task (UpdateTask 2 77) no_task (UpdateTask 3 77)
           demo_advanced_reachable demo_class_b_reachable
           eq_refl eq_refl eq_refl eq_refl eq_refl).
  discriminate.
Defined.

(** After [abort] in [demo_started], worker 1 is told COMPLETE. *)
Lemma abort_makes_every_call_complete_witness :
  aborted (abort demo_started) /\
  get_next_task 1 no_task (abort demo_started)
  = Done (COMPLETE, no_task, abort demo_started).
Proof.
  split; [apply aborted_abort|].
  apply (abort_makes_every_call_complete (abort demo_started) 1 no_task).
  apply aborted_abort.
Defined.

(** In [demo_exhausted] the epoch is 2 of 2 classes: one iteration is
    done, the budget is one, and worker 0 is told COMPLETE. *)
Lemma budget_exhausted_returns_complete_witness :
  reachable demo_exhausted /\
  (0 < length (cpu_index demo_exhausted))%nat /\
  1 <= nblocks demo_exhausted /\
  (cpu_color demo_exhausted !! O = Some 2 \/ 2 = color demo_exhausted) /\
  max_iterations demo_exhausted <= 2 / nblocks demo_exhausted /\
  exists s',
    get_next_task (Z.of_nat O) no_task demo_exhausted
    = Done (COMPLETE, no_task, s') /\
    2 = color demo_exhausted /\ color s' = color demo_exhausted /\
    nblocks s' = nblocks demo_exhausted /\
    max_iterations s' = max_iterations demo_exhausted.
Proof.
  assert (H1 : (0 < length (cpu_index demo_exhausted))%nat) by (simpl; lia).
  assert (H2 : 1 <= nblocks demo_exhausted) by (vm_compute; discriminate).
  assert (H3 : cpu_color demo_exhausted !! O = Some 2 \/
               2 = color demo_exhausted) by (right; reflexivity).
  assert (H4 : max_iterations demo_exhausted <= 2 / nblocks demo_exhausted)
    by (vm_compute; discriminate).
  split; [exact demo_exhausted_reachable|].
  split; [exact H1|]. split; [exact H2|]. split; [exact H3|].
  split; [exact H4|].
  exact (budget_exhausted_returns_complete demo_exhausted O no_task 2
           demo_exhausted_reachable H1 H2 H3 H4).
Defined.

(** Worker 0 reuses a task variable that holds vertex 9: its first call in
    [demo_started] returns WAITING and the variable still holds vertex 9. *)
Lemma ret_task_unmodified_unless_newtask_witness :
  get_next_task 0 (UpdateTask 9 77) demo_started
  = Done (WAITING, UpdateTask 9 77, demo_parked) /\
  WAITING <> NEWTASK /\
  UpdateTask 9 77 = UpdateTask 9 77.
Proof.
  split; [reflexivity|]. split; [discriminate|].
  apply (ret_task_unmodified_unless_newtask demo_started demo_parked 0
           (UpdateTask 9 77) (UpdateTask 9 77) WAITING);
    [reflexivity | discriminate].
Defined.

(** * Further properties of the scheduler *)

(** ** The classes the constructor builds *)

Lemma classes_of_nil (g : graph) : classes_of g [] [].
Proof.
  split; [|split].
  - intros c b H. discriminate H.
  - intros v Hv. apply elem_of_nil in Hv. contradiction.
  - intros H. contradiction.
Qed.

Lemma filter_none {A : Type} (P : A -> Prop) `{forall x, Decision (P x)}
    (l : list A) :
  (forall x, x ∈ l -> ~ P x) -> filter P l = [].
Proof.
  intros Hnone. apply elem_of_nil_inv. intros x Hx.
  apply list_elem_of_filter in Hx. destruct Hx as [HP Hin].
  exact (Hnone x Hin HP).
Qed.

Lemma push_vertex_classes_of (g : graph) (seen : list Z)
    (blocks : list (list Z)) (v0 : Z) :
  0 <= color_of g v0 ->
  classes_of g seen blocks ->
  classes_of g (seen ++ [v0]) (push_vertex g blocks v0).
Proof.
  intros Hv0 (Hcontent & Hbound & Hlast). unfold push_vertex.
  set (c0 := color_of g v0) in *.
  set (blocks' := if Z.of_nat (length blocks) <=? c0
                  then resize (Z.to_nat (c0 + 1)) [] blocks else blocks).
  assert (Hlen' : Z.of_nat (length blocks')
                  = Z.max (Z.of_nat (length blocks)) (c0 + 1)).
  { subst blocks'. destruct (Z.leb_spec (Z.of_nat (length blocks)) c0).
    - rewrite length_resize. lia.
    - lia. }
  assert (Hcontent' : forall c b, blocks' !! c = Some b ->
            b = filter (fun v => color_of g v = Z.of_nat c) seen).
  { intros c b Hb. subst blocks'.
    destruct (Z.leb_spec (Z.of_nat (length blocks)) c0) as [Hle|Hgt];
      [|eauto].
    destruct (decide (c < length blocks)%nat) as [Hc|Hc].
    - pose proof (lookup_lt_Some _ _ _ Hb) as Hc'.
      rewrite length_resize in Hc'.
      rewrite lookup_resize in Hb by lia. eauto.
    - pose proof (lookup_lt_Some _ _ _ Hb) as Hc'.
      rewrite length_resize in Hc'.
      rewrite lookup_resize_new in Hb by lia. injection Hb as <-.
      symmetry. apply filter_none. intros v Hv Hcol.
      specialize (Hbound v Hv). lia. }
  split; [|split].
  - intros c b Hb.
    rewrite filter_app.
    destruct (decide (Z.to_nat c0 = c)) as [<-|Hne].
    + rewrite list_lookup_alter_eq in Hb.
      destruct (blocks' !! Z.to_nat c0) as [b0|] eqn:Hb0; [|discriminate].
      simpl in Hb. injection Hb as <-.
      rewrite (Hcontent' _ _ Hb0).
      rewrite (filter_singleton_True _ _ []) by (subst c0; cbv beta; lia).
      reflexivity.
    + rewrite list_lookup_alter_ne in Hb by assumption.
      rewrite (Hcontent' _ _ Hb).
      rewrite (filter_singleton_False _ _ []) by (subst c0; cbv beta; lia).
      rewrite app_nil_r. reflexivity.
  - intros v Hv. rewrite length_alter. apply elem_of_app in Hv.
    destruct Hv as [Hv|Hv].
    + specialize (Hbound v Hv). lia.
    + apply list_elem_of_singleton in Hv. subst v. fold c0. lia.
  - intros _. rewrite length_alter.
    destruct (Z.leb_spec (Z.of_nat (length blocks)) c0) as [Hle|Hgt].
    + exists v0. split; [apply elem_of_app; right; apply list_elem_of_singleton; reflexivity|].
      fold c0. lia.
    + destruct Hlast as (v & Hv & Hcol).
      { intros ->. simpl in Hgt. lia. }
      exists v. split; [apply elem_of_app; left; exact Hv|]. lia.
Qed.

Lemma foldl_push_vertex_classes_of (g : graph) (vs : list Z) :
  (forall v, v ∈ vs -> 0 <= color_of g v) ->
  classes_of g vs (foldl (push_vertex g) [] vs).
Proof.
  induction vs as [|v vs IH] using rev_ind; intros Hcol.
  - apply classes_of_nil.
  - rewrite foldl_app. simpl. apply push_vertex_classes_of.
    + apply Hcol, elem_of_app. right. apply list_elem_of_singleton. reflexivity.
    + apply IH. intros u Hu. apply Hcol, elem_of_app. left. exact Hu.
Qed.

(** X1. The constructor groups the vertices by color: class [c] of
    [color_blocks] lists exactly the vertices of color [c], in increasing
    order of their ids, and every vertex of the graph is in the class of
    its color. *)
Theorem constructor_groups_vertices_by_color (g : graph) (n : Z)
    (junk : bool) :
  (forall v, 0 <= v < num_vertices g -> 0 <= color_of g v) ->
  (forall c b,
     color_blocks (colored_scheduler g n junk) !! c = Some b ->
     b = filter (fun v => color_of g v = Z.of_nat c)
           (seqZ 0 (num_vertices g))) /\
  (forall v, 0 <= v < num_vertices g ->
     exists b,
       color_blocks (colored_scheduler g n junk) !! Z.to_nat (color_of g v)
       = Some b /\ v ∈ b).
Proof.
  intros Hcol.
  destruct (foldl_push_vertex_classes_of g (seqZ 0 (num_vertices g)))
    as (Hcontent & Hbound & _).
  { intros v Hv. apply elem_of_seqZ in Hv. apply Hcol. lia. }
  split; [exact Hcontent|].
  intros v Hv.
  assert (Hin : v ∈ seqZ 0 (num_vertices g)) by (apply elem_of_seqZ; lia).
  specialize (Hbound v Hin). specialize (Hcol v Hv).
  destruct (lookup_lt_is_Some_2 (build_color_blocks g)
              (Z.to_nat (color_of g v))) as [b Hb].
  { unfold build_color_blocks. lia. }
  exists b. split; [exact Hb|].
  rewrite (Hcontent _ _ Hb). apply list_elem_of_filter.
  split; [lia | exact Hin].
Qed.

(** X2. The constructor makes as many classes as the largest color in use
    plus one: none for a graph without vertices, every vertex's color is
    the index of a class, and the last class is the color of some
    vertex. *)
Theorem constructor_class_count (g : graph) (n : Z) (junk : bool) :
  (forall v, 0 <= v < num_vertices g -> 0 <= color_of g v) ->
  (num_vertices g <= 0 -> nblocks (colored_scheduler g n junk) = 0) /\
  (forall v, 0 <= v < num_vertices g ->
     color_of g v < nblocks (colored_scheduler g n junk)) /\
  (0 < nblocks (colored_scheduler g n junk) ->
   exists v, 0 <= v < num_vertices g /\
     color_of g v = nblocks (colored_scheduler g n junk) - 1).
Proof.
  intros Hcol.
  destruct (foldl_push_vertex_classes_of g (seqZ 0 (num_vertices g)))
    as (_ & Hbound & Hlast).
  { intros v Hv. apply elem_of_seqZ in Hv. apply Hcol. lia. }
  split; [|split].
  - intros Hn. unfold nblocks. simpl. unfold build_color_blocks, seqZ.
    replace (Z.to_nat (num_vertices g)) with O by lia. reflexivity.
  - intros v Hv. apply Hbound, elem_of_seqZ. lia.
  - intros Hpos. destruct Hlast as (v & Hv & Hc).
    { intros Hnil. unfold nblocks in Hpos. simpl in Hpos.
      unfold build_color_blocks in Hpos. rewrite Hnil in Hpos.
      simpl in Hpos. lia. }
    exists v. apply elem_of_seqZ in Hv. split; [lia | exact Hc].
Qed.

Lemma start_Done_state (s s' : scheduler) :
  well_formed s -> start s = Done s' ->
  s' = Scheduler (color_blocks s) (seqZ 0 (ncpus s))
         (replicate (length (cpu_index s)) (color s))
         (replicate (length (cpu_index s)) 0)
         (max_iterations s) (update_function s) false (color s) 0.
Proof.
  intros Hwf Hstart.
  destruct (start_Done s s' Hwf Hstart)
    as (Hwf' & (Hb & Hk & Hf & Hc & Hl) & Hrun & Hwait & Hcur).
  pose proof (wf_color s' Hwf') as Hlc. pose proof (wf_waiting s' Hwf') as Hlw.
  assert (Hidx : cpu_index s' = seqZ 0 (ncpus s)).
  { apply list_eq. intros j. destruct (decide (j < length (cpu_index s))%nat) as [Hj|Hj].
    - specialize (Hcur j Hj). apply cursor_Some in Hcur.
      destruct Hcur as (-> & _). symmetry. apply lookup_seqZ.
      unfold ncpus. lia.
    - rewrite lookup_ge_None_2 by lia.
      symmetry. apply lookup_ge_None_2. rewrite length_seqZ. unfold ncpus. lia. }
  assert (Hcol : cpu_color s' = replicate (length (cpu_index s)) (color s)).
  { apply list_eq. intros j. destruct (decide (j < length (cpu_index s))%nat) as [Hj|Hj].
    - specialize (Hcur j Hj). apply cursor_Some in Hcur.
      destruct Hcur as (_ & -> & _). symmetry. apply lookup_replicate_2. lia.
    - rewrite lookup_ge_None_2 by lia.
      symmetry. apply lookup_ge_None_2. rewrite length_replicate. lia. }
  assert (Hwt : cpu_waiting s' = replicate (length (cpu_index s)) 0).
  { apply list_eq. intros j. destruct (decide (j < length (cpu_index s))%nat) as [Hj|Hj].
    - specialize (Hcur j Hj). apply cursor_Some in Hcur.
      destruct Hcur as (_ & _ & ->). symmetry. apply lookup_replicate_2. lia.
    - rewrite lookup_ge_None_2 by lia.
      symmetry. apply lookup_ge_None_2. rewrite length_replicate. lia. }
  destruct s'. simpl in *. subst. reflexivity.
Qed.

(** X3. [start] fails its assertion exactly when no update function is
    registered; with one registered it succeeds on every scheduler whose
    per-worker vectors have one size, so it never indexes out of range. *)
Theorem start_fails_exactly_without_update_function (s : scheduler) :
  well_formed s ->
  (start s = Crash AssertionFailure <-> update_function s = NULL) /\
  (update_function s <> NULL -> exists s', start s = Done s').
Proof.
  intros Hwf. split.
  - split.
    + intros Hcrash. destruct (Z.eq_dec (update_function s) NULL) as [|Hne];
        [assumption|].
      destruct (start_succeeds s Hwf Hne) as (s' & Hs'). congruence.
    + intros Hnull. unfold start. rewrite Hnull. reflexivity.
  - apply start_succeeds. exact Hwf.
Qed.

(** X4. [start] makes every worker active at the offset of its own id and
    clears the wait counter and the completion flag, but it keeps the
    epoch [color] (and the classes, the budget and the update function):
    a scheduler that is started again goes on from the epoch it had
    reached.  Starting a scheduler that was just started changes
    nothing. *)
Theorem start_resets_workers_keeps_epoch (s s' : scheduler) :
  well_formed s ->
  start s = Done s' ->
  s' = Scheduler (color_blocks s) (seqZ 0 (ncpus s))
         (replicate (length (cpu_index s)) (color s))
         (replicate (length (cpu_index s)) 0)
         (max_iterations s) (update_function s) false (color s) 0 /\
  start s' = Done s'.
Proof.
  intros Hwf Hstart.
  pose proof (start_Done_state s s' Hwf Hstart) as Hs'.
  split; [exact Hs'|].
  destruct (start_Done s s' Hwf Hstart)
    as (Hwf' & (Hb & Hk & Hf & Hc & Hl) & _).
  assert (Hne : update_function s' <> NULL).
  { rewrite Hf. intros Hnull. unfold start in Hstart. rewrite Hnull in Hstart.
    discriminate Hstart. }
  destruct (start_succeeds s' Hwf' Hne) as (s'' & Hs'').
  rewrite Hs''. f_equal.
  rewrite (start_Done_state s' s'' Hwf' Hs'').
  unfold ncpus. rewrite Hl, Hb, Hk, Hf, Hc. symmetry. exact Hs'.
Qed.

(** ** Faults of [get_next_task] *)

(** X5. On a running scheduler with at least one class, a call of
    [get_next_task] returns for every worker id below the worker count
    (no index out of range, no division by zero), and indexes
    [cpu_waiting] out of range for every other id. *)
Theorem get_next_task_faults_only_out_of_range (s : scheduler) (cpuid : Z)
    (t : update_task) :
  well_formed s ->
  1 <= nblocks s ->
  (0 <= cpuid < ncpus s ->
   exists st t' s', get_next_task cpuid t s = Done (st, t', s')) /\
  (completed s = false -> ~ (0 <= cpuid < ncpus s) ->
   get_next_task cpuid t s = Crash OutOfRange).
Proof.
  intros Hwf Hnb. split.
  - intros Hin.
    assert (Hi : (Z.to_nat cpuid < length (cpu_index s))%nat)
      by (unfold ncpus in Hin; lia).
    destruct (step_total s (Z.to_nat cpuid) Hwf Hi) as (st & ov & s' & Hstep);
      [lia|].
    exists st, (returned_task s t ov), s'.
    rewrite <- (Z2Nat.id cpuid) at 1 by lia.
    apply step_get_next_task; assumption.
  - intros Hrun Hout.
    assert (Hat : vec_at (cpu_waiting s) cpuid = Crash OutOfRange).
    { unfold vec_at. destruct (Z.leb_spec 0 cpuid) as [Hpos|Hneg];
        [|reflexivity].
      rewrite lookup_ge_None_2; [reflexivity|].
      rewrite (wf_waiting s Hwf). unfold ncpus in Hout. lia. }
    unfold get_next_task. rewrite Hrun, Hat. reflexivity.
Qed.

(** ** What a call leaves alone *)

Lemma step_cursor_ne (s s' : scheduler) (i j : nat) (st : status_enum)
    (ov : option Z) :
  step s i st ov s' -> i <> j -> cursor s' j = cursor s j.
Proof.
  intros Hstep Hne. destruct Hstep; try reflexivity.
  - apply cursor_put_cursor_ne. exact Hne.
  - apply cursor_put_cursor_ne. exact Hne.
  - change (cursor (put_cursor i idx1 col1 1 s) j = cursor s j).
    apply cursor_put_cursor_ne. exact Hne.
  - change (cursor (put_cursor i idx1 col1 1 s) j = cursor s j).
    apply cursor_put_cursor_ne. exact Hne.
Qed.

(** X6. A call of [get_next_task] writes the caller's cursor and the two
    shared counters only: the cursor of every other worker, the classes,
    the budget, the update function, the completion flag and the number
    of workers are as before. *)
Theorem get_next_task_leaves_other_workers_alone (s s' : scheduler)
    (cpuid : Z) (t t' : update_task) (st : status_enum) :
  well_formed s ->
  get_next_task cpuid t s = Done (st, t', s') ->
  (forall j, Z.of_nat j <> cpuid -> cursor s' j = cursor s j) /\
  color_blocks s' = color_blocks s /\
  max_iterations s' = max_iterations s /\
  update_function s' = update_function s /\
  completed s' = completed s /\
  ncpus s' = ncpus s.
Proof.
  intros Hwf H.
  destruct (get_next_task_step s cpuid t _ Hwf H)
    as (st0 & ov & s0 & [= -> -> ->] & [(_ & _ & _ & ->)|(_ & i & -> & Hstep)]).
  { repeat split; reflexivity. }
  destruct (step_frame _ _ _ _ _ Hstep) as (Hb & Hk & Hf & Hc & Hl).
  split; [|unfold ncpus; rewrite Hl; auto].
  intros j Hj. apply (step_cursor_ne s s0 i j st0 ov Hstep). congruence.
Qed.

(** ** The wait counter *)

Lemma reachable_waiting_below (s : scheduler) :
  reachable s -> ncpus s = 0 \/ waiting s < ncpus s.
Proof.
  induction 1 as
    [ s s' Hwf Hstart
    | s cpuid t st t' s' Hreach IH Hcall
    | s cpuid t _ IH
    | s t p _ IH
    | s vs f p _ IH
    | s f p _ IH
    | s _ IH
    | s _ IH ]; try exact IH.
  - destruct (start_Done s s' Hwf Hstart) as (_ & (_ & _ & _ & _ & Hl) & _ & Hw & _).
    rewrite Hw. unfold ncpus. rewrite Hl. lia.
  - pose proof (reachable_invariant s Hreach) as Hinv.
    pose proof (invariant_get_next_task s s' cpuid t t' st Hinv Hcall) as Hinv'.
    destruct (get_next_task_step s cpuid t _ (inv_wf s Hinv) Hcall)
      as (st0 & ov & s0 & [= _ _ <-] & [(_ & _ & _ & ->)|(_ & i & _ & Hstep)]);
      [exact IH|].
    destruct (step_frame _ _ _ _ _ Hstep) as (_ & _ & _ & _ & Hl).
    assert (HN : ncpus s' = ncpus s) by (unfold ncpus; rewrite Hl; reflexivity).
    rewrite HN.
    pose proof (inv_waiting s' Hinv') as Hw'.
    pose proof (count_below_le (is_parked s') (length (cpu_index s'))) as Hle.
    fold (count_parked s') in Hle.
    destruct Hstep; try exact IH.
    + right. simpl in Hw'. simpl. unfold ncpus in *. lia.
    + right. simpl. apply cursor_lt in H0. unfold ncpus. lia.
Qed.

(** X7. In every state of a run the wait counter is the number of workers
    that are parked on the current epoch (waiting flag set, observed epoch
    equal to the shared one), and it is below the worker count: between
    two calls the counter is never seen at the threshold. *)
Theorem waiting_counts_parked_workers (s : scheduler) :
  reachable s ->
  waiting s = Z.of_nat (count_parked s) /\
  (0 < ncpus s -> 0 <= waiting s < ncpus s).
Proof.
  intros Hreach.
  pose proof (inv_waiting s (reachable_invariant s Hreach)) as Hw.
  split; [exact Hw|]. intros HN.
  destruct (reachable_waiting_below s Hreach); lia.
Qed.

(** ** The vertices of one epoch *)

Lemma congruent_above (a b n : Z) :
  0 < n -> a mod n = b mod n -> a < b -> a + n <= b.
Proof.
  intros Hn Hmod Hlt.
  pose proof (Z.div_mod a n) as Ha. pose proof (Z.div_mod b n) as Hb.
  assert (Hq : a / n < b / n) by nia. nia.
Qed.

Lemma residue_below (o n i : Z) :
  0 < n -> 0 <= o -> o mod n = i -> i <= o.
Proof.
  intros Hn Ho Hmod. pose proof (Z.mod_le o n Ho Hn). lia.
Qed.

Lemma elem_of_owed_offsets (s : scheduler) (o : Z) :
  o ∈ owed_offsets s <->
  0 <= o < Z.of_nat (length (current_class s)) /\ owes s o = true.
Proof.
  unfold owed_offsets. rewrite list_elem_of_filter, elem_of_seqZ.
  split; intros [? ?]; split; auto; lia.
Qed.

Lemma NoDup_owed_offsets (s : scheduler) : NoDup (owed_offsets s).
Proof. apply NoDup_filter, NoDup_seqZ. Qed.

Lemma owes_cursor (s : scheduler) (o : Z) (i : nat) (idx col wt : Z) :
  o mod ncpus s = Z.of_nat i ->
  cursor s i = Some (idx, col, wt) ->
  owes s o = if wt =? 0 then idx <? o else negb (col =? color s).
Proof.
  intros Hmod Hcur. unfold owes. rewrite Hmod, Nat2Z.id, Hcur. reflexivity.
Qed.

Lemma step_current_class (s s1 : scheduler) (i : nat) (st : status_enum)
    (ov : option Z) :
  step s i st ov s1 -> color s1 = color s ->
  current_class s1 = current_class s /\ ncpus s1 = ncpus s /\
  nblocks s1 = nblocks s /\ max_iterations s1 = max_iterations s.
Proof.
  intros Hstep Hcolor.
  destruct (step_frame _ _ _ _ _ Hstep) as (Hb & Hk & _ & _ & Hl).
  unfold current_class, nblocks, ncpus. rewrite Hb, Hcolor, Hl. auto.
Qed.

Lemma owes_other (s s1 : scheduler) (i : nat) (st : status_enum)
    (ov : option Z) (o : Z) :
  step s i st ov s1 -> color s1 = color s ->
  Z.to_nat (o mod ncpus s) <> i ->
  owes s1 o = owes s o.
Proof.
  intros Hstep Hcolor Hne.
  destruct (step_current_class _ _ _ _ _ Hstep Hcolor) as (_ & HN & _).
  unfold owes. rewrite HN, Hcolor.
  rewrite (step_cursor_ne s s1 i _ st ov Hstep) by auto. reflexivity.
Qed.

(** What the worker that enters dispatch at offset [idx1] still owes:
    the offsets of its residue from [idx1] on. *)
Lemma owes_entered (s : scheduler) (i : nat) (idx col wt idx1 col1 o : Z) :
  invariant s ->
  cursor s i = Some (idx, col, wt) ->
  ~ (wt <> 0 /\ col = color s) ->
  enter_class s i idx col wt = (idx1, col1) ->
  color s / nblocks s < max_iterations s ->
  0 <= o -> o mod ncpus s = Z.of_nat i ->
  owes s o = (idx1 <=? o).
Proof.
  intros Hinv Hcur Hfree Henter Hbudget Ho Hmod.
  pose proof (inv_wf s Hinv) as Hwf.
  pose proof (cursor_lt _ _ _ Hcur) as Hi.
  assert (HN : 0 < ncpus s) by (unfold ncpus; lia).
  destruct (inv_cursors s Hinv _ _ _ _ Hcur) as (Ha & _ & Hoff).
  rewrite (owes_cursor s o i idx col wt Hmod Hcur).
  unfold enter_class in Henter.
  destruct (Z.eqb_spec wt 0) as [Hz|Hnz]; injection Henter as <- <-.
  - specialize (Ha Hz). subst col.
    destruct Hoff as [[_ Hout]|(Hpos & Hres & Hfit)]; [lia|].
    specialize (Hfit Hz).
    pose proof (fits_no_overflow s idx Hwf Hfit) as Hno.
    rewrite wrap_small by lia.
    destruct (Z.ltb_spec idx o) as [Hlt|Hge], (Z.leb_spec (idx + ncpus s) o);
      try reflexivity; exfalso.
    + pose proof (congruent_above idx o (ncpus s) HN). lia.
    + lia.
  - assert (Hcol : col <> color s) by (intros ->; apply Hfree; auto).
    destruct (Z.eqb_spec col (color s)); [contradiction|]. simpl.
    pose proof (residue_below o (ncpus s) (Z.of_nat i) HN Ho Hmod).
    symmetry. apply Z.leb_le. lia.
Qed.

Lemma step_owed (s s1 : scheduler) (i : nat) (t : update_task)
    (st : status_enum) (ov : option Z) :
  invariant s ->
  step s i st ov s1 ->
  color s1 = color s ->
  color s / nblocks s < max_iterations s ->
  owed_vertices s ≡ₚ handed st (returned_task s t ov) ++ owed_vertices s1.
Proof.
  intros Hinv Hstep Hcolor Hbudget.
  pose proof (inv_wf s Hinv) as Hwf.
  destruct (step_current_class _ _ _ _ _ Hstep Hcolor) as (Hclass & HN & _).
  pose proof Hstep as Hstep0.
  destruct Hstep as
    [ Hrun
    | idx col wt Hrun Hcur Hnz Hsame
    | idx col wt idx1 col1 Hrun Hcur Hfree Henter Hnb Hk
    | idx col wt idx1 col1 block v Hrun Hcur Hfree Henter Hnb Hk Hblock Hlt Hv
    | idx col wt idx1 col1 block Hrun Hcur Hfree Henter Hnb Hk Hblock Hge Hinc
    | idx col wt idx1 col1 block Hrun Hcur Hfree Henter Hnb Hk Hblock Hge Hinc ];
    try reflexivity.
  all: pose proof (cursor_lt _ _ _ Hcur) as Hi.
  all: assert (HNpos : 0 < ncpus s) by (unfold ncpus; lia).
  all: destruct (enter_class_ok s i idx col wt idx1 col1 Hwf Hi
                   (inv_cursors s Hinv _ _ _ _ Hcur) Hfree Henter)
         as (Hcol1 & Hpos & Hres).
  - (* out of budget: excluded *)
    subst col1. lia.
  - (* a vertex is handed out *)
    subst col1. specialize (Hres Hk).
    assert (Hcc : current_class s = block)
      by (unfold current_class; rewrite Hblock; reflexivity).
    assert (Hperm : owed_offsets s
                    ≡ₚ idx1 :: owed_offsets (put_cursor i idx1 (color s) 0 s)).
    { apply NoDup_Permutation.
      - apply NoDup_owed_offsets.
      - apply NoDup_cons. split; [|apply NoDup_owed_offsets].
        rewrite elem_of_owed_offsets. intros [_ Howes].
        rewrite (owes_cursor _ idx1 i idx1 (color s) 0) in Howes.
        + simpl in Howes. apply Z.ltb_lt in Howes. lia.
        + rewrite HN. exact Hres.
        + apply cursor_put_cursor_eq; assumption.
      - intros o. rewrite elem_of_cons, !elem_of_owed_offsets, Hclass.
        destruct (decide (Z.to_nat (o mod ncpus s) = i)) as [Ho|Ho].
        + assert (Hom : o mod ncpus s = Z.of_nat i)
            by (pose proof (Z.mod_pos_bound o (ncpus s) HNpos); lia).
          assert (Hcur1 : cursor (put_cursor i idx1 (color s) 0 s) i
                          = Some (idx1, color s, 0))
            by (apply cursor_put_cursor_eq; assumption).
          assert (Hom1 : o mod ncpus (put_cursor i idx1 (color s) 0 s)
                         = Z.of_nat i) by (rewrite HN; exact Hom).
          rewrite (owes_cursor _ o i idx1 (color s) 0 Hom1 Hcur1). simpl.
          split.
          * intros [Hrange Howes].
            rewrite (owes_entered s i idx col wt idx1 (color s) o Hinv Hcur
                       Hfree Henter Hbudget) in Howes by (lia || exact Hom).
            apply Z.leb_le in Howes.
            destruct (Z.eq_dec o idx1) as [->|Hne]; [left; reflexivity|].
            right. split; [exact Hrange|]. apply Z.ltb_lt. lia.
          * intros [->|[Hrange Howes]].
            -- split; [rewrite Hcc; lia|].
               rewrite (owes_entered s i idx col wt idx1 (color s) idx1 Hinv
                          Hcur Hfree Henter Hbudget) by (lia || exact Hom).
               apply Z.leb_le. lia.
            -- split; [exact Hrange|]. apply Z.ltb_lt in Howes.
               rewrite (owes_entered s i idx col wt idx1 (color s) o Hinv Hcur
                          Hfree Henter Hbudget) by (lia || exact Hom).
               apply Z.leb_le. lia.
        + rewrite (owes_other s _ i _ _ o Hstep0 Hcolor Ho). split; [auto|].
          intros [->|H]; [|exact H]. exfalso. apply Ho.
          rewrite Hres. apply Nat2Z.id. }
    unfold owed_vertices. rewrite Hperm, Hclass. simpl.
    rewrite Hcc. rewrite (nth_lookup_Some _ _ _ _ Hv). reflexivity.
  - (* the worker parks *)
    subst col1. specialize (Hres Hk).
    assert (Hcc : current_class s = block)
      by (unfold current_class; rewrite Hblock; reflexivity).
    simpl. unfold owed_vertices. rewrite Hclass.
    apply fmap_Permutation. apply NoDup_Permutation;
      try apply NoDup_owed_offsets.
    intros o. rewrite !elem_of_owed_offsets, Hclass.
    destruct (decide (Z.to_nat (o mod ncpus s) = i)) as [Ho|Ho].
    + assert (Hom : o mod ncpus s = Z.of_nat i)
        by (pose proof (Z.mod_pos_bound o (ncpus s) HNpos); lia).
      split; intros [Hrange Howes]; exfalso.
      * rewrite (owes_entered s i idx col wt idx1 (color s) o) in Howes;
          try assumption; try lia.
        apply Z.leb_le in Howes. rewrite Hcc in Hrange. lia.
      * rewrite (owes_cursor _ o i idx1 (color s) 1) in Howes.
        -- simpl in Howes. rewrite Z.eqb_refl in Howes. discriminate.
        -- rewrite HN. exact Hom.
        -- apply cursor_put_cursor_eq; assumption.
    + rewrite (owes_other s _ i _ _ o Hstep0 Hcolor Ho). reflexivity.
  - (* the epoch advances: excluded *)
    exfalso. simpl in Hcolor. apply atomic_inc_changes in Hcolor. exact Hcolor.
Qed.

Lemma epoch_calls_frame (s s' : scheduler) (calls vs : list Z) :
  invariant s -> epoch_calls s calls vs s' ->
  invariant s' /\ color s' = color s /\ nblocks s' = nblocks s /\
  max_iterations s' = max_iterations s /\ ncpus s' = ncpus s /\
  color_blocks s' = color_blocks s /\ current_class s' = current_class s.
Proof.
  intros Hinv Hcalls. induction Hcalls as
    [ s | s cpuid t st t' s1 rest vs s' Hcall Hcolor _ IH ].
  - split; [exact Hinv|]. repeat split; reflexivity.
  - pose proof (invariant_get_next_task s s1 cpuid t t' st Hinv Hcall) as Hinv1.
    destruct (IH Hinv1) as (Hinv' & Hc & Hnb & Hk & HN & Hb & Hcc).
    assert (Hframe : nblocks s1 = nblocks s /\
                     max_iterations s1 = max_iterations s /\
                     ncpus s1 = ncpus s /\ color_blocks s1 = color_blocks s /\
                     current_class s1 = current_class s).
    { destruct (get_next_task_step s cpuid t _ (inv_wf s Hinv) Hcall)
        as (st0 & ov & s0 & [= _ _ <-] & [(_ & _ & _ & ->)|(_ & i & _ & Hstep)]).
      - repeat split; reflexivity.
      - destruct (step_current_class _ _ _ _ _ Hstep Hcolor) as (? & ? & ? & ?).
        destruct (step_frame _ _ _ _ _ Hstep) as (? & _). auto. }
    destruct Hframe as (Hnb1 & Hk1 & HN1 & Hb1 & Hcc1).
    split; [exact Hinv'|]. rewrite Hc, Hnb, Hk, HN, Hb, Hcc.
    repeat split; assumption.
Qed.

(** Within one epoch that is in budget, the vertices handed out and the
    vertices still owed at the end make up the vertices owed at the
    beginning. *)
Lemma epoch_calls_owed (s s' : scheduler) (calls vs : list Z) :
  invariant s ->
  color s / nblocks s < max_iterations s ->
  epoch_calls s calls vs s' ->
  owed_vertices s ≡ₚ vs ++ owed_vertices s'.
Proof.
  intros Hinv Hbudget Hcalls. induction Hcalls as
    [ s | s cpuid t st t' s1 rest vs s' Hcall Hcolor Hrest IH ].
  - reflexivity.
  - pose proof (invariant_get_next_task s s1 cpuid t t' st Hinv Hcall) as Hinv1.
    destruct (get_next_task_step s cpuid t _ (inv_wf s Hinv) Hcall)
      as (st0 & ov & s0 & [= -> -> <-] & [(_ & -> & _ & ->)|(_ & i & _ & Hstep)]).
    + simpl. apply IH; assumption.
    + rewrite (step_owed s s1 i t st0 ov Hinv Hstep Hcolor Hbudget).
      rewrite <- app_assoc. apply Permutation_app_head.
      apply IH; [exact Hinv1|].
      destruct (step_current_class _ _ _ _ _ Hstep Hcolor) as (_ & _ & -> & ->).
      rewrite Hcolor. exact Hbudget.
Qed.

(** The call that advances the epoch: the epoch was in budget, nothing
    was owed any more, and every worker is now parked on the epoch that
    ended. *)
Lemma advance_call (s s' : scheduler) (cpuid : Z) (t t' : update_task)
    (st : status_enum) :
  invariant s ->
  get_next_task cpuid t s = Done (st, t', s') ->
  color s' <> color s ->
  color s / nblocks s < max_iterations s /\
  owed_offsets s = [] /\
  0 < ncpus s' /\
  (forall j, (j < length (cpu_index s'))%nat ->
     exists idx wt, cursor s' j = Some (idx, color s, wt) /\ wt <> 0).
Proof.
  intros Hinv Hcall Hcolor.
  pose proof (inv_wf s Hinv) as Hwf.
  destruct (get_next_task_step s cpuid t _ Hwf Hcall)
    as (st0 & ov & s0 & [= _ _ <-] & [(_ & _ & _ & ->)|(_ & i & _ & Hstep)]);
    [contradiction|].
  pose proof Hstep as Hstep0.
  destruct Hstep as
    [ Hrun
    | idx col wt Hrun Hcur Hnz Hsame
    | idx col wt idx1 col1 Hrun Hcur Hfree Henter Hnb Hk
    | idx col wt idx1 col1 block v Hrun Hcur Hfree Henter Hnb Hk Hblock Hlt Hv
    | idx col wt idx1 col1 block Hrun Hcur Hfree Henter Hnb Hk Hblock Hge Hinc
    | idx col wt idx1 col1 block Hrun Hcur Hfree Henter Hnb Hk Hblock Hge Hinc ];
    try (exfalso; apply Hcolor; reflexivity).
  pose proof (cursor_lt _ _ _ Hcur) as Hi.
  assert (HNpos : 0 < ncpus s) by (unfold ncpus; lia).
  destruct (enter_class_ok s i idx col wt idx1 col1 Hwf Hi
              (inv_cursors s Hinv _ _ _ _ Hcur) Hfree Henter)
    as (Hcol1 & Hpos & Hres).
  subst col1. specialize (Hres Hk).
  pose proof (count_parked_put_cursor_parked s i idx col wt idx1 Hwf Hcur Hfree)
    as Hcount.
  set (s1 := put_cursor i idx1 (color s) 1 s) in *.
  assert (Hlen1 : length (cpu_index s1) = length (cpu_index s))
    by (subst s1; simpl; apply length_insert).
  assert (Hfull : count_parked s1 = length (cpu_index s1)).
  { pose proof (count_below_le (is_parked s1) (length (cpu_index s1))) as Hle.
    fold (count_parked s1) in Hle. rewrite Hcount in Hle |- *.
    pose proof (wf_ncpus s Hwf) as HN. unfold ncpus in HN.
    pose proof Hinc as Hinc'.
    rewrite (inv_waiting s Hinv) in Hinc'. unfold atomic_inc in Hinc'.
    rewrite wrap_small in Hinc' by lia. unfold ncpus in Hinc'. lia. }
  assert (Hall : forall j, (j < length (cpu_index s1))%nat ->
            exists idx2 wt2, cursor s1 j = Some (idx2, color s, wt2) /\ wt2 <> 0).
  { intros j Hj. pose proof (count_below_full _ _ Hfull j Hj) as Hp.
    apply is_parked_true in Hp.
    destruct Hp as (idx2 & col2 & wt2 & Hc2 & Hw2 & Hcol2).
    change (color s1) with (color s) in Hcol2. subst col2. eauto. }
  split; [exact Hk|]. split; [|split; [|exact Hall]].
  2: { unfold ncpus in *. simpl. rewrite length_insert. exact HNpos. }
  assert (Hcc : current_class s = block)
    by (unfold current_class; rewrite Hblock; reflexivity).
  apply filter_none. intros o Ho Howes. apply elem_of_seqZ in Ho.
  rewrite Hcc in Ho.
  destruct (decide (Z.to_nat (o mod ncpus s) = i)) as [Hoi|Hoi].
  - assert (Hom : o mod ncpus s = Z.of_nat i)
      by (pose proof (Z.mod_pos_bound o (ncpus s) HNpos); lia).
    rewrite (owes_entered s i idx col wt idx1 (color s) o Hinv Hcur Hfree
               Henter Hk) in Howes by (lia || exact Hom).
    apply Z.leb_le in Howes. lia.
  - assert (Hj : (Z.to_nat (o mod ncpus s) < length (cpu_index s1))%nat).
    { pose proof (Z.mod_pos_bound o (ncpus s) HNpos). rewrite Hlen1.
      unfold ncpus in *. lia. }
    destruct (Hall _ Hj) as (idx2 & wt2 & Hc2 & Hw2).
    subst s1. rewrite cursor_put_cursor_ne in Hc2 by auto.
    unfold owes in Howes. rewrite Hc2 in Howes.
    destruct (Z.eqb_spec wt2 0); [contradiction|].
    rewrite Z.eqb_refl in Howes. discriminate.
Qed.

(** The vertices handed out from a state of an epoch to the end of that
    epoch are exactly the vertices owed in that state, each once. *)
Lemma epoch_run_owed (s s' : scheduler) (calls vs : list Z) :
  invariant s -> epoch_run s calls vs s' -> vs ≡ₚ owed_vertices s.
Proof.
  intros Hinv Hrun.
  destruct Hrun as [s calls vs s1 cpuid t st t' s' Hcalls Hcall Hcolor].
  destruct (epoch_calls_frame s s1 calls vs Hinv Hcalls)
    as (Hinv1 & Hc & Hnb & Hk & _).
  destruct (advance_call s1 s' cpuid t t' st Hinv1 Hcall Hcolor)
    as (Hbudget & Hnone & _ & _).
  rewrite Hc, Hnb, Hk in Hbudget.
  rewrite (epoch_calls_owed s s1 calls vs Hinv Hbudget Hcalls).
  unfold owed_vertices. rewrite Hnone. simpl. rewrite app_nil_r.
  reflexivity.
Qed.

Lemma filter_all {A : Type} (P : A -> Prop) `{forall x, Decision (P x)}
    (l : list A) :
  (forall x, x ∈ l -> P x) -> filter P l = l.
Proof.
  induction l as [|x l IH]; intros Hall; [reflexivity|].
  rewrite filter_cons_True by (apply Hall, elem_of_cons; auto).
  f_equal. apply IH. intros y Hy. apply Hall, elem_of_cons. auto.
Qed.

Lemma fmap_nth_seqZ (l : list Z) (from : nat) :
  (fun o => nth (Z.to_nat o) l 0)
    <$> seqZ (Z.of_nat from) (Z.of_nat (length l) - Z.of_nat from)
  = drop from l.
Proof.
  apply list_eq. intros k. rewrite list_lookup_fmap, lookup_drop.
  destruct (decide (from + k < length l)%nat) as [Hk|Hk].
  - rewrite lookup_seqZ_lt by lia. simpl.
    replace (Z.to_nat (Z.of_nat from + Z.of_nat k)) with (from + k)%nat by lia.
    destruct (lookup_lt_is_Some_2 l (from + k)%nat Hk) as [x Hx].
    rewrite Hx. f_equal. apply nth_lookup_Some. exact Hx.
  - rewrite lookup_seqZ_ge by lia. simpl. symmetry.
    apply lookup_ge_None_2. lia.
Qed.

Lemma NoDup_current_class (s : scheduler) :
  well_formed s -> NoDup (current_class s).
Proof.
  intros Hwf. unfold current_class.
  destruct (color_blocks s !! Z.to_nat (color s mod nblocks s)) as [b|] eqn:Hb;
    simpl; [|apply NoDup_nil_2].
  pose proof (wf_nodup s Hwf) as Hnd. rewrite Forall_lookup in Hnd. eauto.
Qed.

Lemma NoDup_owed_vertices (s : scheduler) :
  well_formed s -> NoDup (owed_vertices s).
Proof.
  intros Hwf. unfold owed_vertices.
  apply NoDup_fmap_2_strong; [|apply NoDup_owed_offsets].
  intros x y Hx Hy Heq.
  apply elem_of_owed_offsets in Hx. apply elem_of_owed_offsets in Hy.
  destruct Hx as [Hx _], Hy as [Hy _].
  destruct (lookup_lt_is_Some_2 (current_class s) (Z.to_nat x)) as [vx Hvx];
    [lia|].
  destruct (lookup_lt_is_Some_2 (current_class s) (Z.to_nat y)) as [vy Hvy];
    [lia|].
  rewrite (nth_lookup_Some _ _ _ _ Hvx), (nth_lookup_Some _ _ _ _ Hvy) in Heq.
  subst vy.
  pose proof (NoDup_lookup _ _ _ _ (NoDup_current_class s Hwf) Hvx Hvy). lia.
Qed.

Lemma get_next_task_ncpus (s s' : scheduler) (cpuid : Z)
    (t t' : update_task) (st : status_enum) :
  well_formed s -> get_next_task cpuid t s = Done (st, t', s') ->
  ncpus s' = ncpus s.
Proof.
  intros Hwf H.
  destruct (get_next_task_step s cpuid t _ Hwf H)
    as (st0 & ov & s0 & [= _ _ <-] & [(_ & _ & _ & ->)|(_ & i & _ & Hstep)]);
    [reflexivity|].
  destruct (step_frame _ _ _ _ _ Hstep) as (_ & _ & _ & _ & Hl).
  unfold ncpus. rewrite Hl. reflexivity.
Qed.

(** X8. An epoch that follows an epoch transition hands out its color
    class exactly once: the vertices handed out between the call that
    advanced the epoch and the next call that advances it are, whatever
    the interleaving of the workers, a permutation of the class. *)
Theorem later_epoch_hands_out_class_once (s0 s s' : scheduler)
    (calls0 vs0 calls vs : list Z) :
  reachable s0 ->
  epoch_run s0 calls0 vs0 s ->
  epoch_run s calls vs s' ->
  vs ≡ₚ current_class s.
Proof.
  intros Hreach Hrun0 Hrun.
  pose proof (reachable_invariant s0 Hreach) as Hinv0.
  destruct Hrun0 as [s0 calls0 vs0 s1 cpuid t st t' s Hcalls Hcall Hcolor].
  destruct (epoch_calls_frame s0 s1 calls0 vs0 Hinv0 Hcalls) as (Hinv1 & _).
  pose proof (invariant_get_next_task s1 s cpuid t t' st Hinv1 Hcall) as Hinv.
  destruct (advance_call s1 s cpuid t t' st Hinv1 Hcall Hcolor)
    as (_ & _ & HN & Hall).
  rewrite (epoch_run_owed s s' calls vs Hinv Hrun).
  unfold owed_vertices, owed_offsets. rewrite filter_all.
  - replace (seqZ 0 (Z.of_nat (length (current_class s))))
      with (seqZ (Z.of_nat O)
              (Z.of_nat (length (current_class s)) - Z.of_nat O))
      by (f_equal; lia).
    rewrite fmap_nth_seqZ. reflexivity.
  - intros o Ho. apply elem_of_seqZ in Ho.
    assert (Hj : (Z.to_nat (o mod ncpus s) < length (cpu_index s))%nat).
    { pose proof (Z.mod_pos_bound o (ncpus s) HN). unfold ncpus in *. lia. }
    destruct (Hall _ Hj) as (idx & wt & Hcur & Hwt).
    unfold owes. rewrite Hcur.
    destruct (Z.eqb_spec wt 0); [contradiction|].
    destruct (Z.eqb_spec (color s1) (color s)); [|reflexivity].
    exfalso. apply Hcolor. congruence.
Qed.

(** X9. The epoch that [start] begins hands out its class without the
    first [ncpus] vertices: between [start] and the first call that
    advances the epoch, the vertices handed out are a permutation of the
    class from offset [ncpus] on. *)
Theorem start_epoch_hands_out_class_from_ncpus (s0 s s' : scheduler)
    (calls vs : list Z) :
  well_formed s0 ->
  start s0 = Done s ->
  epoch_run s calls vs s' ->
  vs ≡ₚ drop (length (cpu_index s)) (current_class s).
Proof.
  intros Hwf0 Hstart Hrun.
  pose proof (invariant_start s0 s Hwf0 Hstart) as Hinv.
  destruct (start_Done s0 s Hwf0 Hstart)
    as (_ & (_ & _ & _ & Hc & Hl) & _ & _ & Hcur).
  assert (HN : 0 < ncpus s).
  { destruct Hrun as [s calls vs s1 cpuid t st t' s' Hcalls Hcall Hcolor].
    destruct (epoch_calls_frame s s1 calls vs Hinv Hcalls)
      as (Hinv1 & _ & _ & _ & <- & _).
    destruct (advance_call s1 s' cpuid t t' st Hinv1 Hcall Hcolor)
      as (_ & _ & HN' & _).
    rewrite <- (get_next_task_ncpus s1 s' cpuid t t' st (inv_wf s1 Hinv1)
                  Hcall).
    exact HN'. }
  rewrite (epoch_run_owed s s' calls vs Hinv Hrun).
  rewrite <- fmap_nth_seqZ. unfold owed_vertices.
  apply fmap_Permutation. apply NoDup_Permutation.
  - apply NoDup_owed_offsets.
  - apply NoDup_seqZ.
  - intros o. rewrite elem_of_owed_offsets, elem_of_seqZ.
    assert (Hres : 0 <= o -> owes s o = (o mod ncpus s <? o)).
    { intros Ho. pose proof (Z.mod_pos_bound o (ncpus s) HN) as Hb.
      assert (Hj : (Z.to_nat (o mod ncpus s) < length (cpu_index s0))%nat)
        by (unfold ncpus in *; lia).
      unfold owes. rewrite (Hcur _ Hj). simpl. f_equal. lia. }
    fold (ncpus s). split.
    + intros [Hrange Howes]. rewrite Hres in Howes by lia.
      apply Z.ltb_lt in Howes.
      destruct (Z_lt_le_dec o (ncpus s)) as [Hlt|Hge]; [|lia].
      rewrite Z.mod_small in Howes by lia. lia.
    + intros Hrange. split; [lia|]. rewrite Hres by lia.
      apply Z.ltb_lt. pose proof (Z.mod_pos_bound o (ncpus s) HN). lia.
Qed.

Lemma epoch_calls_out_of_budget (s s' : scheduler) (calls vs : list Z) :
  invariant s ->
  max_iterations s <= color s / nblocks s ->
  epoch_calls s calls vs s' ->
  vs = [].
Proof.
  intros Hinv Hout Hcalls. induction Hcalls as
    [ s | s cpuid t st t' s1 rest vs s' Hcall Hcolor Hrest IH ].
  - reflexivity.
  - pose proof (invariant_get_next_task s s1 cpuid t t' st Hinv Hcall) as Hinv1.
    destruct (get_next_task_step s cpuid t _ (inv_wf s Hinv) Hcall)
      as (st0 & ov & s0 & [= -> -> <-] & [(_ & -> & _ & ->)|(_ & i & _ & Hstep)]).
    + simpl. apply IH; assumption.
    + destruct (step_out_of_budget s s1 i st0 ov Hinv Hstep Hout)
        as (-> & -> & _).
      simpl. apply IH; [exact Hinv1|].
      destruct (step_current_class _ _ _ _ _ Hstep Hcolor) as (_ & _ & -> & ->).
      rewrite Hcolor. exact Hout.
Qed.

(** X10. Within one epoch no vertex is handed out twice: the vertices
    handed out by any sequence of calls during which the shared epoch
    does not change are pairwise distinct, whichever workers call and in
    whatever order. *)
Theorem epoch_hands_out_no_vertex_twice (s s' : scheduler)
    (calls vs : list Z) :
  reachable s ->
  epoch_calls s calls vs s' ->
  NoDup vs.
Proof.
  intros Hreach Hcalls.
  pose proof (reachable_invariant s Hreach) as Hinv.
  destruct (Z_lt_le_dec (color s / nblocks s) (max_iterations s))
    as [Hin|Hout].
  - pose proof (epoch_calls_owed s s' calls vs Hinv Hin Hcalls) as Hperm.
    pose proof (NoDup_owed_vertices s (inv_wf s Hinv)) as Hnd.
    rewrite Hperm in Hnd. apply NoDup_app in Hnd. tauto.
  - rewrite (epoch_calls_out_of_budget s s' calls vs Hinv Hout Hcalls).
    apply NoDup_nil_2.
Qed.

(** ** The color of a vertex that is handed out *)

(** X11. On a scheduler built for graph [g], a task that is handed out
    carries a vertex of [g] whose color is the current color
    [color mod nblocks], together with the update function registered at
    the time of the call; the epoch is then within the iteration
    budget. *)
Theorem handed_vertex_has_current_color (g : graph) (s s' : scheduler)
    (cpuid : Z) (t t' : update_task) :
  (forall v, 0 <= v < num_vertices g -> 0 <= color_of g v) ->
  color_blocks s = build_color_blocks g ->
  reachable s ->
  get_next_task cpuid t s = Done (NEWTASK, t', s') ->
  0 <= vertex t' < num_vertices g /\
  color_of g (vertex t') = color s mod nblocks s /\
  function t' = update_function s /\
  color s / nblocks s < max_iterations s.
Proof.
  intros Hcol Hblocks Hreach Hcall.
  pose proof (reachable_invariant s Hreach) as Hinv.
  destruct (get_next_task_step s cpuid t _ (inv_wf s Hinv) Hcall)
    as (st0 & ov & s0 & Heq & [(_ & Hst & _)|(_ & i & -> & _)]).
  { injection Heq as <- _ _. discriminate Hst. }
  destruct (newtask_offset s s' i t t' Hreach Hcall)
    as (o & block & _ & Hk & Hb & Ho & Hv & Hf).
  assert (Hnb : 0 < nblocks s).
  { apply lookup_lt_Some in Hb. unfold nblocks. lia. }
  destruct (foldl_push_vertex_classes_of g (seqZ 0 (num_vertices g)))
    as (Hcontent & _ & _).
  { intros v Hv'. apply elem_of_seqZ in Hv'. apply Hcol. lia. }
  rewrite Hblocks in Hb. apply Hcontent in Hb.
  assert (Hin : vertex t' ∈ block) by (eapply list_elem_of_lookup_2; exact Hv).
  rewrite Hb in Hin. apply list_elem_of_filter in Hin.
  destruct Hin as [Hc Hrange]. apply elem_of_seqZ in Hrange.
  pose proof (Z.mod_pos_bound (color s) (nblocks s) Hnb).
  split; [lia|]. split; [lia|]. split; [exact Hf | exact Hk].
Qed.


(** ** Termination of the round-robin simulation *)

Lemma run_app (ws1 ws2 : list Z) (s : scheduler) :
  run (ws1 ++ ws2) s
  = '(tr1, s1) ← run ws1 s; '(tr2, s2) ← run ws2 s1; Done (tr1 ++ tr2, s2).
Proof.
  revert s. induction ws1 as [|w ws1 IH]; intros s.
  - simpl. destruct (run ws2 s) as [[tr2 s2]|]; reflexivity.
  - change (run ((w :: ws1) ++ ws2) s)
      with ('(st, task, s1) ← get_next_task w no_task s;
            '(tr, s2) ← run (ws1 ++ ws2) s1;
            Done (observe w st task :: tr, s2)).
    change (run (w :: ws1) s)
      with ('(st, task, s1) ← get_next_task w no_task s;
            '(tr, s2) ← run ws1 s1;
            Done (observe w st task :: tr, s2)).
    destruct (get_next_task w no_task s) as [[[st task] s1]|]; [|reflexivity].
    simpl. rewrite IH.
    destruct (run ws1 s1) as [[tr1 s1']|]; [|reflexivity]. simpl.
    destruct (run ws2 s1') as [[tr2 s2]|]; reflexivity.
Qed.

Lemma count_below_missing (p : nat -> bool) (n : nat) :
  (count_below p n < n)%nat -> exists j, (j < n)%nat /\ p j = false.
Proof.
  induction n as [|n IH]; intros Hlt; [lia|]. simpl in Hlt.
  destruct (p n) eqn:Hn.
  - destruct IH as (j & Hj & Hpj); [lia|]. exists j. split; [lia | exact Hpj].
  - exists n. split; [lia | exact Hn].
Qed.

(** One call in an epoch that is in budget: either it is the call that
    advances the epoch, or the epoch stays and nothing is added to what
    is pending; a call of a worker that is not parked takes something
    off, a call of a parked worker changes nothing. *)
Lemma call_progress (s : scheduler) (i : nat) (t : update_task) :
  reachable s ->
  completed s = false ->
  1 <= nblocks s ->
  color s / nblocks s < max_iterations s ->
  (i < length (cpu_index s))%nat ->
  exists st t' s1,
    get_next_task (Z.of_nat i) t s = Done (st, t', s1) /\
    completed s1 = false /\ nblocks s1 = nblocks s /\
    max_iterations s1 = max_iterations s /\
    length (cpu_index s1) = length (cpu_index s) /\
    (color s1 = atomic_inc (color s) \/
     (color s1 = color s /\ (pending s1 <= pending s)%nat /\
      (is_parked s i = false -> (pending s1 < pending s)%nat) /\
      (is_parked s i = true -> s1 = s))).
Proof.
  intros Hreach Hrun Hnb Hbudget Hi.
  pose proof (reachable_invariant s Hreach) as Hinv.
  pose proof (inv_wf s Hinv) as Hwf.
  destruct (step_total s i Hwf Hi) as (st & ov & s1 & Hstep); [lia|].
  pose proof (step_get_next_task s s1 i t st ov Hwf Hstep) as Hcall.
  exists st, (returned_task s t ov), s1. split; [exact Hcall|].
  destruct (step_frame _ _ _ _ _ Hstep) as (Hb & Hk & _ & Hc & Hl).
  split; [rewrite Hc; exact Hrun|].
  split; [unfold nblocks; rewrite Hb; reflexivity|].
  split; [exact Hk|]. split; [exact Hl|].
  pose proof (invariant_step s s1 i st ov Hinv Hstep) as Hinv1.
  pose proof (count_below_le (is_parked s1) (length (cpu_index s1))) as Hle1.
  fold (count_parked s1) in Hle1.
  assert (Howed : color s1 = color s ->
            length (owed_offsets s)
            = (length (handed st (returned_task s t ov))
               + length (owed_offsets s1))%nat).
  { intros Hcolor.
    pose proof (step_owed s s1 i t st ov Hinv Hstep Hcolor Hbudget) as Hperm.
    apply Permutation_length in Hperm.
    unfold owed_vertices in Hperm.
    rewrite length_app, !length_fmap in Hperm. exact Hperm. }
  destruct Hstep as
    [ Hrun'
    | idx col wt Hrun' Hcur Hnz Hsame
    | idx col wt idx1 col1 Hrun' Hcur Hfree Henter Hnb' Hk'
    | idx col wt idx1 col1 block v Hrun' Hcur Hfree Henter Hnb' Hk' Hblock Hlt Hv
    | idx col wt idx1 col1 block Hrun' Hcur Hfree Henter Hnb' Hk' Hblock Hge Hinc
    | idx col wt idx1 col1 block Hrun' Hcur Hfree Henter Hnb' Hk' Hblock Hge Hinc ].
  - congruence.
  - right. split; [reflexivity|]. split; [lia|]. split; [|reflexivity].
    intros Hp. exfalso.
    assert (Hp' : is_parked s i = true)
      by (apply is_parked_true; exists idx, col, wt; auto).
    congruence.
  - exfalso.
    destruct (enter_class_ok s i idx col wt idx1 col1 Hwf Hi
                (inv_cursors s Hinv _ _ _ _ Hcur) Hfree Henter) as (-> & _).
    lia.
  - right. split; [reflexivity|].
    specialize (Howed eq_refl). simpl in Howed.
    pose proof (count_parked_put_cursor_active s i idx col wt idx1 col1 Hwf
                  Hcur Hfree) as Hcount.
    pose proof (is_parked_false s i idx col wt Hcur Hfree) as Hnp.
    unfold pending. rewrite Hcount, Hl.
    split; [lia|]. split; [intros _; lia|]. intros Hp. congruence.
  - right. split; [reflexivity|].
    specialize (Howed eq_refl). simpl in Howed.
    destruct (enter_class_ok s i idx col wt idx1 col1 Hwf Hi
                (inv_cursors s Hinv _ _ _ _ Hcur) Hfree Henter) as (-> & _).
    pose proof (count_parked_put_cursor_parked s i idx col wt idx1 Hwf
                  Hcur Hfree) as Hcount.
    pose proof (is_parked_false s i idx col wt Hcur Hfree) as Hnp.
    change (count_parked (set_waiting (atomic_inc (waiting s))
                            (put_cursor i idx1 (color s) 1 s)))
      with (count_parked (put_cursor i idx1 (color s) 1 s)) in Hle1.
    unfold pending.
    change (count_parked (set_waiting (atomic_inc (waiting s))
                            (put_cursor i idx1 (color s) 1 s)))
      with (count_parked (put_cursor i idx1 (color s) 1 s)).
    rewrite Hcount in Hle1 |- *. rewrite Hl in Hle1 |- *.
    change (owed_offsets (set_waiting (atomic_inc (waiting s))
                            (put_cursor i idx1 (color s) 1 s)))
      with (owed_offsets (put_cursor i idx1 (color s) 1 s)) in Howed |- *.
    split; [lia|]. split; [intros _; lia|]. intros Hp. congruence.
  - left. reflexivity.
Qed.

Lemma in_budget_below (a c k : Z) : 0 < c -> a / c < k -> a < k * c.
Proof.
  intros Hc Hdiv. pose proof (Z.div_mod a c) as Hdm.
  pose proof (Z.mod_pos_bound a c Hc) as Hm. nia.
Qed.

Lemma out_of_budget_above (a c k : Z) : 0 < c -> k <= a / c -> k * c <= a.
Proof.
  intros Hc Hdiv. pose proof (Z.div_mod a c) as Hdm.
  pose proof (Z.mod_pos_bound a c Hc) as Hm. nia.
Qed.

(** Calls of valid workers, one after the other: either an epoch is
    completed, or the epoch stays, nothing is added to what is pending,
    and the call of a worker that was not parked takes something off. *)
Lemma calls_progress (ws : list nat) (s : scheduler) :
  reachable s ->
  completed s = false ->
  1 <= nblocks s ->
  0 <= color s ->
  max_iterations s * nblocks s < SizeT.modulus ->
  Forall (fun i => (i < length (cpu_index s))%nat) ws ->
  exists tr s',
    run (Z.of_nat <$> ws) s = Done (tr, s') /\
    reachable s' /\ completed s' = false /\ nblocks s' = nblocks s /\
    max_iterations s' = max_iterations s /\
    length (cpu_index s') = length (cpu_index s) /\ 0 <= color s' /\
    ((epochs_left s' < epochs_left s)%nat \/
     (color s' = color s /\
      (color s / nblocks s < max_iterations s ->
       (pending s' <= pending s)%nat /\
       (Exists (fun j => is_parked s j = false) ws ->
        (pending s' < pending s)%nat)))).
Proof.
  revert s. induction ws as [|i ws IH];
    intros s Hreach Hrun Hnb Hcol Hfit Hall.
  - exists [], s. split; [reflexivity|]. repeat (split; [auto; fail|]).
    right. split; [reflexivity|]. intros _. split; [lia|].
    intros Hex. inversion Hex.
  - apply Forall_cons in Hall. destruct Hall as [Hi Hall].
    pose proof (reachable_invariant s Hreach) as Hinv.
    pose proof (inv_wf s Hinv) as Hwf.
    assert (Hnext : exists st t' s1,
      get_next_task (Z.of_nat i) no_task s = Done (st, t', s1) /\
      completed s1 = false /\ nblocks s1 = nblocks s /\
      max_iterations s1 = max_iterations s /\
      length (cpu_index s1) = length (cpu_index s) /\ 0 <= color s1 /\
      ((epochs_left s1 < epochs_left s)%nat \/
       (color s1 = color s /\
        (color s / nblocks s < max_iterations s ->
         (pending s1 <= pending s)%nat /\
         (is_parked s i = false -> (pending s1 < pending s)%nat) /\
         (is_parked s i = true -> s1 = s))))).
    { destruct (Z_lt_le_dec (color s / nblocks s) (max_iterations s))
        as [Hin|Hout].
      - destruct (call_progress s i no_task Hreach Hrun Hnb Hin Hi)
          as (st & t' & s1 & Hcall & Hrun1 & Hnb1 & Hk1 & Hl1 & Hcases).
        exists st, t', s1. split; [exact Hcall|].
        split; [exact Hrun1|]. split; [exact Hnb1|]. split; [exact Hk1|].
        split; [exact Hl1|].
        assert (Hc0 : 0 < nblocks s) by lia.
        pose proof (in_budget_below (color s) (nblocks s) (max_iterations s)
                      Hc0 Hin) as Hlt.
        destruct Hcases as [Hadv|(Hsame & Hrest)].
        + assert (Hinc : color s1 = color s + 1).
          { rewrite Hadv. unfold atomic_inc. apply wrap_small. lia. }
          split; [lia|]. left. unfold epochs_left. rewrite Hk1, Hnb1, Hinc.
          lia.
        + split; [lia|]. right. split; [exact Hsame|]. intros _. exact Hrest.
      - destruct (step_total s i Hwf Hi) as (st & ov & s1 & Hstep); [lia|].
        destruct (step_out_of_budget s s1 i st ov Hinv Hstep Hout)
          as (-> & -> & Hc).
        pose proof (step_get_next_task s s1 i no_task _ _ Hwf Hstep) as Hcall.
        destruct (step_frame _ _ _ _ _ Hstep) as (Hb & Hk & _ & Hcomp & Hl).
        exists COMPLETE, no_task, s1. split; [exact Hcall|].
        split; [rewrite Hcomp; exact Hrun|].
        split; [unfold nblocks; rewrite Hb; reflexivity|].
        split; [exact Hk|]. split; [exact Hl|]. split; [lia|].
        right. split; [exact Hc|]. intros Hin. lia. }
    destruct Hnext as (st & t' & s1 & Hcall & Hrun1 & Hnb1 & Hk1 & Hl1 & Hcol1
                       & Hcases).
    pose proof (reach_next _ _ _ _ _ _ Hreach Hcall) as Hreach1.
    destruct (IH s1 Hreach1 Hrun1) as
      (tr & s' & Hrest & Hreach' & Hrun' & Hnb' & Hk' & Hl' & Hcol' & Hcases');
      [lia | exact Hcol1 | rewrite Hk1, Hnb1; exact Hfit
       | rewrite Hl1; exact Hall |].
    exists (observe (Z.of_nat i) st t' :: tr), s'.
    split.
    { rewrite fmap_cons.
      change (run (Z.of_nat i :: (Z.of_nat <$> ws)) s)
        with ('(st, task, s1) ← get_next_task (Z.of_nat i) no_task s;
              '(tr, s2) ← run (Z.of_nat <$> ws) s1;
              Done (observe (Z.of_nat i) st task :: tr, s2)).
      rewrite Hcall. unfold mbind at 1, outcome_bind at 1. cbv beta iota.
      rewrite Hrest. reflexivity. }
    split; [exact Hreach'|]. split; [exact Hrun'|].
    split; [congruence|]. split; [congruence|]. split; [congruence|].
    split; [exact Hcol'|].
    assert (Heq : color s1 = color s -> epochs_left s1 = epochs_left s)
      by (intros Hc; unfold epochs_left; rewrite Hk1, Hnb1, Hc; reflexivity).
    destruct Hcases as [Hless|(Hsame & Hpend)].
    + left. destruct Hcases' as [Hless'|(Hsame' & _)]; [lia|].
      assert (epochs_left s' = epochs_left s1)
        by (unfold epochs_left; rewrite Hk', Hnb', Hsame'; reflexivity).
      lia.
    + destruct Hcases' as [Hless'|(Hsame' & Hpend')].
      * left. rewrite <- (Heq Hsame). exact Hless'.
      * right. split; [congruence|]. intros Hin.
        destruct (Hpend Hin) as (Hle & Hstrict & Hid).
        destruct Hpend' as (Hle' & Hstrict');
          [rewrite Hsame, Hnb1, Hk1; exact Hin|].
        split; [lia|]. intros Hex. apply Exists_cons in Hex.
        destruct (is_parked s i) eqn:Hp.
        -- specialize (Hid eq_refl). subst s1.
           destruct Hex as [Hex|Hex]; [congruence|].
           specialize (Hstrict' Hex). lia.
        -- specialize (Hstrict eq_refl). lia.
Qed.

(** One round in an epoch that is in budget completes an epoch or takes
    something off what is pending: not every worker is parked. *)
Lemma round_progress (s : scheduler) :
  reachable s ->
  completed s = false ->
  1 <= ncpus s ->
  1 <= nblocks s ->
  0 <= color s ->
  max_iterations s * nblocks s < SizeT.modulus ->
  color s / nblocks s < max_iterations s ->
  exists tr s',
    run (seqZ 0 (ncpus s)) s = Done (tr, s') /\
    reachable s' /\ completed s' = false /\ nblocks s' = nblocks s /\
    max_iterations s' = max_iterations s /\ ncpus s' = ncpus s /\
    0 <= color s' /\
    ((epochs_left s' < epochs_left s)%nat \/
     (epochs_left s' = epochs_left s /\ (pending s' < pending s)%nat)).
Proof.
  intros Hreach Hrun HN Hnb Hcol Hfit Hin.
  destruct (calls_progress (seq 0 (length (cpu_index s))) s Hreach Hrun Hnb
              Hcol Hfit)
    as (tr & s' & Hrun' & Hreach' & Hcomp' & Hnb' & Hk' & Hl' & Hcol' & Hcases).
  { apply Forall_forall. intros i Hi. apply elem_of_seq in Hi. lia. }
  exists tr, s'. unfold ncpus at 1. rewrite seqZ_of_nat.
  split; [exact Hrun'|]. split; [exact Hreach'|]. split; [exact Hcomp'|].
  split; [exact Hnb'|]. split; [exact Hk'|].
  split; [unfold ncpus; rewrite Hl'; reflexivity|]. split; [exact Hcol'|].
  destruct Hcases as [Hless|(Hsame & Hpend)]; [left; exact Hless|].
  right. split; [unfold epochs_left; rewrite Hk', Hnb', Hsame; reflexivity|].
  destruct (Hpend Hin) as (_ & Hstrict). apply Hstrict.
  pose proof (reachable_invariant s Hreach) as Hinv.
  pose proof (inv_waiting s Hinv) as Hw.
  destruct (reachable_waiting_below s Hreach) as [HN0|Hbelow]; [lia|].
  destruct (count_below_missing (is_parked s) (length (cpu_index s)))
    as (j & Hj & Hpj).
  { fold (count_parked s). unfold ncpus in Hbelow. lia. }
  apply Exists_exists. exists j. split; [|exact Hpj].
  apply elem_of_seq. lia.
Qed.

Lemma exhausted_call_complete (s : scheduler) (i : nat) (t : update_task) :
  reachable s -> 1 <= nblocks s ->
  max_iterations s <= color s / nblocks s ->
  (i < length (cpu_index s))%nat ->
  exists s', get_next_task (Z.of_nat i) t s = Done (COMPLETE, t, s').
Proof.
  intros Hreach Hnb Hout Hi.
  pose proof (reachable_invariant s Hreach) as Hinv.
  pose proof (inv_wf s Hinv) as Hwf.
  destruct (step_total s i Hwf Hi) as (st & ov & s' & Hstep); [lia|].
  destruct (step_out_of_budget s s' i st ov Hinv Hstep Hout) as (-> & -> & _).
  exists s'. exact (step_get_next_task s s' i t _ _ Hwf Hstep).
Qed.

Lemma rounds_reach_budget (e : nat) :
  forall (p : nat) (s : scheduler),
    (epochs_left s <= e)%nat -> (pending s <= p)%nat ->
    reachable s ->
    completed s = false ->
    1 <= ncpus s ->
    1 <= nblocks s ->
    0 <= color s ->
    max_iterations s * nblocks s < SizeT.modulus ->
    exists n tr s',
      run (rounds n (seqZ 0 (ncpus s))) s = Done (tr, s') /\
      reachable s' /\ ncpus s' = ncpus s /\ nblocks s' = nblocks s /\
      max_iterations s' = max_iterations s /\
      max_iterations s' <= color s' / nblocks s'.
Proof.
  induction e as [e IHe] using lt_wf_ind.
  induction p as [|p IHp];
    intros s He Hp Hreach Hrun HN Hnb Hcol Hfit.
  all: destruct (Z_lt_le_dec (color s / nblocks s) (max_iterations s))
         as [Hin|Hout];
         [|exists O, [], s; simpl; repeat (split; [auto; fail|]); exact Hout].
  all: destruct (round_progress s Hreach Hrun HN Hnb Hcol Hfit Hin)
         as (tr & s1 & Hround & Hreach1 & Hrun1 & Hnb1 & Hk1 & HN1 & Hcol1
             & Hcases).
  all: assert (Hstep : forall n tr' s',
         run (rounds n (seqZ 0 (ncpus s1))) s1 = Done (tr', s') ->
         run (rounds (S n) (seqZ 0 (ncpus s))) s = Done (tr ++ tr', s')).
  all: try (intros n tr' s' Hrest; simpl; rewrite run_app, Hround; simpl;
            rewrite <- HN1, Hrest; reflexivity).
  all: assert (Hfit1 : max_iterations s1 * nblocks s1 < SizeT.modulus)
         by (rewrite Hk1, Hnb1; exact Hfit).
  - destruct Hcases as [Hless|(_ & Hless)]; [|lia].
    destruct (IHe (epochs_left s1) ltac:(lia) (pending s1) s1)
      as (n & tr' & s' & Hrest & Hreach' & HN' & Hnb' & Hk' & Hout');
      try assumption; try lia.
    exists (S n), (tr ++ tr'), s'. split; [apply Hstep; exact Hrest|].
    split; [exact Hreach'|]. repeat split; congruence.
  - destruct Hcases as [Hless|(Hsame & Hless)].
    + destruct (IHe (epochs_left s1) ltac:(lia) (pending s1) s1)
        as (n & tr' & s' & Hrest & Hreach' & HN' & Hnb' & Hk' & Hout');
        try assumption; try lia.
      exists (S n), (tr ++ tr'), s'. split; [apply Hstep; exact Hrest|].
      split; [exact Hreach'|]. repeat split; congruence.
    + destruct (IHp s1)
        as (n & tr' & s' & Hrest & Hreach' & HN' & Hnb' & Hk' & Hout');
        try assumption; try lia.
      exists (S n), (tr ++ tr'), s'. split; [apply Hstep; exact Hrest|].
      split; [exact Hreach'|]. repeat split; congruence.
Qed.

(** X12. The round-robin simulation terminates.  On a running scheduler
    with at least one worker and one class, whose budget of epochs
    [max_iterations * nblocks] is a value of a [size_t], there is a number
    of rounds (every worker calling once per round, in the order of the
    ids) after which the iteration budget is used up; from then on every
    call of every worker returns COMPLETE. *)
Theorem round_robin_run_completes (s : scheduler) :
  reachable s ->
  completed s = false ->
  1 <= ncpus s ->
  1 <= nblocks s ->
  0 <= color s ->
  max_iterations s * nblocks s < SizeT.modulus ->
  exists n trace s',
    run (rounds n (seqZ 0 (ncpus s))) s = Done (trace, s') /\
    max_iterations s' <= color s' / nblocks s' /\
    forall (i : nat) (t : update_task),
      (i < length (cpu_index s))%nat ->
      exists s'', get_next_task (Z.of_nat i) t s' = Done (COMPLETE, t, s'').
Proof.
  intros Hreach Hrun HN Hnb Hcol Hfit.
  destruct (rounds_reach_budget (epochs_left s) (pending s) s)
    as (n & tr & s' & Hrest & Hreach' & HN' & Hnb' & Hk' & Hout');
    try assumption; try lia.
  exists n, tr, s'. split; [exact Hrest|]. split; [exact Hout'|].
  intros i t Hi. apply exhausted_call_complete; try assumption.
  - lia.
  - unfold ncpus in HN'. lia.
Qed.

(** * The further properties on the scenario *)

(** The colors of the scenario's graph are not negative. *)
Lemma two_color_graph_unsigned (v : Z) :
  0 <= v < num_vertices two_color_graph -> 0 <= color_of two_color_graph v.
Proof. intros _. simpl. destruct (v <? 2); lia. Qed.

Lemma demo_started_well_formed : well_formed demo_started.
Proof. exact (inv_wf _ (reachable_invariant _ demo_started_reachable)). Qed.

(** The first epoch of the scenario: both workers overrun class A. *)
Lemma demo_first_epoch : epoch_run demo_started [0; 1] [] demo_advanced.
Proof.
  apply (epoch_run_intro demo_started [0] [] demo_parked 1 no_task WAITING
           no_task demo_advanced).
  - exact (epoch_calls_cons demo_started 0 no_task WAITING no_task demo_parked
             [] [] demo_parked eq_refl eq_refl (epoch_calls_nil demo_parked)).
  - reflexivity.
  - discriminate.
Qed.

(** The two calls that hand out class B. *)
Lemma demo_class_b_calls :
  epoch_calls demo_advanced [0; 1] [2; 3] demo_class_b_done.
Proof.
  exact (epoch_calls_cons demo_advanced 0 no_task NEWTASK (UpdateTask 2 77)
           demo_class_b [1] [3] demo_class_b_done eq_refl eq_refl
           (epoch_calls_cons demo_class_b 1 no_task NEWTASK (UpdateTask 3 77)
              demo_class_b_done [] [] demo_class_b_done eq_refl eq_refl
              (epoch_calls_nil demo_class_b_done))).
Qed.

(** The second epoch of the scenario: class B, then both workers park. *)
Lemma demo_second_epoch :
  epoch_run demo_advanced [0; 1; 0; 1] [2; 3] demo_exhausted.
Proof.
  apply (epoch_run_intro demo_advanced [0; 1; 0] [2; 3] demo_parked_b 1
           no_task WAITING no_task demo_exhausted).
  - exact (epoch_calls_cons demo_advanced 0 no_task NEWTASK (UpdateTask 2 77)
             demo_class_b [1; 0] [3] demo_parked_b eq_refl eq_refl
             (epoch_calls_cons demo_class_b 1 no_task NEWTASK (UpdateTask 3 77)
                demo_class_b_done [0] [] demo_parked_b eq_refl eq_refl
                (epoch_calls_cons demo_class_b_done 0 no_task WAITING no_task
                   demo_parked_b [] [] demo_parked_b eq_refl eq_refl
                   (epoch_calls_nil demo_parked_b)))).
  - reflexivity.
  - discriminate.
Qed.

(** The classes of the scenario's graph. *)
Lemma constructor_groups_vertices_by_color_witness :
  (forall v, 0 <= v < num_vertices two_color_graph ->
     0 <= color_of two_color_graph v) /\
  (forall c b,
     color_blocks (colored_scheduler two_color_graph 2 false) !! c = Some b ->
     b = filter (fun v => color_of two_color_graph v = Z.of_nat c)
           (seqZ 0 (num_vertices two_color_graph))) /\
  (forall v, 0 <= v < num_vertices two_color_graph ->
     exists b,
       color_blocks (colored_scheduler two_color_graph 2 false)
         !! Z.to_nat (color_of two_color_graph v) = Some b /\ v ∈ b).
Proof.
  split; [exact two_color_graph_unsigned|].
  exact (constructor_groups_vertices_by_color two_color_graph 2 false
           two_color_graph_unsigned).
Defined.

(** The scenario's graph has two colors and two classes. *)
Lemma constructor_class_count_witness :
  (forall v, 0 <= v < num_vertices two_color_graph ->
     0 <= color_of two_color_graph v) /\
  (num_vertices two_color_graph <= 0 ->
   nblocks (colored_scheduler two_color_graph 2 false) = 0) /\
  (forall v, 0 <= v < num_vertices two_color_graph ->
     color_of two_color_graph v
     < nblocks (colored_scheduler two_color_graph 2 false)) /\
  (0 < nblocks (colored_scheduler two_color_graph 2 false) ->
   exists v, 0 <= v < num_vertices two_color_graph /\
     color_of two_color_graph v
     = nblocks (colored_scheduler two_color_graph 2 false) - 1).
Proof.
  split; [exact two_color_graph_unsigned|].
  exact (constructor_class_count two_color_graph 2 false
           two_color_graph_unsigned).
Defined.

(** The configured scheduler of the scenario has an update function. *)
Lemma start_fails_exactly_without_update_function_witness :
  well_formed demo_ready /\
  (start demo_ready = Crash AssertionFailure <->
   update_function demo_ready = NULL) /\
  (update_function demo_ready <> NULL -> exists s', start demo_ready = Done s').
Proof.
  split; [exact demo_ready_well_formed|].
  exact (start_fails_exactly_without_update_function demo_ready
           demo_ready_well_formed).
Defined.

(** Starting the scheduler of the scenario again after its run: the epoch
    stays at 2. *)
Lemma start_resets_workers_keeps_epoch_witness :
  well_formed demo_exhausted /\
  start demo_exhausted
  = Done (Scheduler [[0; 1]; [2; 3]] [0; 1] [2; 2] [0; 0] 1 77 false 2 0) /\
  Scheduler [[0; 1]; [2; 3]] [0; 1] [2; 2] [0; 0] 1 77 false 2 0
  = Scheduler (color_blocks demo_exhausted) (seqZ 0 (ncpus demo_exhausted))
      (replicate (length (cpu_index demo_exhausted)) (color demo_exhausted))
      (replicate (length (cpu_index demo_exhausted)) 0)
      (max_iterations demo_exhausted) (update_function demo_exhausted) false
      (color demo_exhausted) 0 /\
  start (Scheduler [[0; 1]; [2; 3]] [0; 1] [2; 2] [0; 0] 1 77 false 2 0)
  = Done (Scheduler [[0; 1]; [2; 3]] [0; 1] [2; 2] [0; 0] 1 77 false 2 0).
Proof.
  assert (Hwf : well_formed demo_exhausted)
    by exact (inv_wf _ (reachable_invariant _ demo_exhausted_reachable)).
  split; [exact Hwf|]. split; [reflexivity|].
  exact (start_resets_workers_keeps_epoch demo_exhausted _ Hwf eq_refl).
Defined.

(** Worker id 2 does not exist in the scenario, which has two workers. *)
Lemma get_next_task_faults_only_out_of_range_witness :
  well_formed demo_started /\
  1 <= nblocks demo_started /\
  (0 <= 2 < ncpus demo_started ->
   exists st t' s', get_next_task 2 no_task demo_started = Done (st, t', s')) /\
  (completed demo_started = false -> ~ (0 <= 2 < ncpus demo_started) ->
   get_next_task 2 no_task demo_started = Crash OutOfRange).
Proof.
  assert (Hnb : 1 <= nblocks demo_started) by (vm_compute; discriminate).
  split; [exact demo_started_well_formed|]. split; [exact Hnb|].
  exact (get_next_task_faults_only_out_of_range demo_started 2 no_task
           demo_started_well_formed Hnb).
Defined.

(** The first call of worker 0 leaves the cursor of worker 1 alone. *)
Lemma get_next_task_leaves_other_workers_alone_witness :
  well_formed demo_started /\
  get_next_task 0 no_task demo_started = Done (WAITING, no_task, demo_parked) /\
  (forall j, Z.of_nat j <> 0 -> cursor demo_parked j = cursor demo_started j) /\
  color_blocks demo_parked = color_blocks demo_started /\
  max_iterations demo_parked = max_iterations demo_started /\
  update_function demo_parked = update_function demo_started /\
  completed demo_parked = completed demo_started /\
  ncpus demo_parked = ncpus demo_started.
Proof.
  split; [exact demo_started_well_formed|]. split; [reflexivity|].
  exact (get_next_task_leaves_other_workers_alone demo_started demo_parked 0
           no_task no_task WAITING demo_started_well_formed eq_refl).
Defined.

(** One worker is parked in [demo_parked]. *)
Lemma waiting_counts_parked_workers_witness :
  reachable demo_parked /\
  waiting demo_parked = Z.of_nat (count_parked demo_parked) /\
  (0 < ncpus demo_parked -> 0 <= waiting demo_parked < ncpus demo_parked).
Proof.
  split; [exact demo_parked_reachable|].
  exact (waiting_counts_parked_workers demo_parked demo_parked_reachable).
Defined.

(** The second epoch of the scenario hands out class B. *)
Lemma later_epoch_hands_out_class_once_witness :
  reachable demo_started /\
  epoch_run demo_started [0; 1] [] demo_advanced /\
  epoch_run demo_advanced [0; 1; 0; 1] [2; 3] demo_exhausted /\
  [2; 3] ≡ₚ current_class demo_advanced.
Proof.
  split; [exact demo_started_reachable|]. split; [exact demo_first_epoch|].
  split; [exact demo_second_epoch|].
  exact (later_epoch_hands_out_class_once demo_started demo_advanced
           demo_exhausted [0; 1] [] [0; 1; 0; 1] [2; 3]
           demo_started_reachable demo_first_epoch demo_second_epoch).
Defined.

(** The first epoch of the scenario hands out nothing: class A has no
    offset from 2 on. *)
Lemma start_epoch_hands_out_class_from_ncpus_witness :
  well_formed demo_ready /\
  start demo_ready = Done demo_started /\
  epoch_run demo_started [0; 1] [] demo_advanced /\
  [] ≡ₚ drop (length (cpu_index demo_started)) (current_class demo_started).
Proof.
  split; [exact demo_ready_well_formed|]. split; [reflexivity|].
  split; [exact demo_first_epoch|].
  exact (start_epoch_hands_out_class_from_ncpus demo_ready demo_started
           demo_advanced [0; 1] [] demo_ready_well_formed eq_refl
           demo_first_epoch).
Defined.

(** Vertices 2 and 3 are handed out in the second epoch. *)
Lemma epoch_hands_out_no_vertex_twice_witness :
  reachable demo_advanced /\
  epoch_calls demo_advanced [0; 1] [2; 3] demo_class_b_done /\
  NoDup [2; 3].
Proof.
  split; [exact demo_advanced_reachable|]. split; [exact demo_class_b_calls|].
  exact (epoch_hands_out_no_vertex_twice demo_advanced demo_class_b_done
           [0; 1] [2; 3] demo_advanced_reachable demo_class_b_calls).
Defined.

(** Vertex 2, handed out in epoch 1, has color 1. *)
Lemma handed_vertex_has_current_color_witness :
  (forall v, 0 <= v < num_vertices two_color_graph ->
     0 <= color_of two_color_graph v) /\
  color_blocks demo_advanced = build_color_blocks two_color_graph /\
  reachable demo_advanced /\
  get_next_task 0 no_task demo_advanced
  = Done (NEWTASK, UpdateTask 2 77, demo_class_b) /\
  0 <= vertex (UpdateTask 2 77) < num_vertices two_color_graph /\
  color_of two_color_graph (vertex (UpdateTask 2 77))
  = color demo_advanced mod nblocks demo_advanced /\
  function (UpdateTask 2 77) = update_function demo_advanced /\
  color demo_advanced / nblocks demo_advanced < max_iterations demo_advanced.
Proof.
  split; [exact two_color_graph_unsigned|]. split; [reflexivity|].
  split; [exact demo_advanced_reachable|]. split; [reflexivity|].
  exact (handed_vertex_has_current_color two_color_graph demo_advanced
           demo_class_b 0 no_task (UpdateTask 2 77) two_color_graph_unsigned
           eq_refl demo_advanced_reachable eq_refl).
Defined.

(** The scenario run round-robin from [demo_started]. *)
Lemma round_robin_run_completes_witness :
  reachable demo_started /\
  completed demo_started = false /\
  1 <= ncpus demo_started /\
  1 <= nblocks demo_started /\
  0 <= color demo_started /\
  max_iterations demo_started * nblocks demo_started < SizeT.modulus /\
  exists n trace s',
    run (rounds n (seqZ 0 (ncpus demo_started))) demo_started
    = Done (trace, s') /\
    max_iterations s' <= color s' / nblocks s' /\
    forall (i : nat) (t : update_task),
      (i < length (cpu_index demo_started))%nat ->
      exists s'', get_next_task (Z.of_nat i) t s' = Done (COMPLETE, t, s'').
Proof.
  assert (H1 : 1 <= ncpus demo_started) by (vm_compute; discriminate).
  assert (H2 : 1 <= nblocks demo_started) by (vm_compute; discriminate).
  assert (H3 : 0 <= color demo_started) by (vm_compute; discriminate).
  assert (H4 : max_iterations demo_started * nblocks demo_started
               < SizeT.modulus) by reflexivity.
  split; [exact demo_started_reachable|]. split; [reflexivity|].
  split; [exact H1|]. split; [exact H2|]. split; [exact H3|].
  split; [exact H4|].
  exact (round_robin_run_completes demo_started demo_started_reachable
           eq_refl H1 H2 H3 H4).
Defined.
